(** * llxt: the resilient fetch path

    A shallow embedding of [internal/http] (client construction and the
    fetcher) together with the parts of [internal/errors] it uses, of
    [internal/registry] (loading and lookup), of the spinner of
    [internal/ui] and of the fetch command of [internal/cli/commands].

    Conventions of the embedding:
    - Go [int] and [time.Duration] values are integers ([Z]); a duration is a
      number of nanoseconds, as in package [time].
    - A nil-able pointer ([*Config], [*string]) is an [option].
    - A Go [(value, error)] pair is a pair whose second component is an
      [option]: [None] is the nil error.
    - The round trip performed by [client.R().Get(url)] is the only effect of
      the fetcher.  It is threaded explicitly: the network and the mutable
      state kept inside the HTTP client are a [World], and [Get] is a
      transition on it. *)

From Stdlib Require Import ZArith.
From Stdlib Require Import Ascii.
From stdpp Require Import base option list strings gmap pretty.
From stdpp Require Import sorting.

Local Open Scope string_scope.
Local Open Scope Z_scope.

(** Method chaining: [x |> m a] is Go's [x.m(a)]; every builder method of
    the embedding takes its receiver last. *)
Notation "x |> f" := (f x) (at level 71, left associativity, only parsing).

(** ** Package [time] *)
Module time.

Definition Duration := Z.

Definition Nanosecond : Duration := 1.
Definition Microsecond : Duration := 1000 * Nanosecond.
Definition Millisecond : Duration := 1000 * Microsecond.
Definition Second : Duration := 1000 * Millisecond.

End time.

(** ** Go error values produced below the fetcher

    The transport reports failures as ordinary Go errors; the fetcher only
    wraps them, so their text is all that is kept. *)
Inductive GoError : Type :=
  | errorString (text : string).

(** [err.Error()] *)
Definition errorText (e : GoError) : string :=
  match e with
  | errorString text => text
  end.

(** ** Package [log/slog], as far as the client hooks use it *)
Module slog.

Inductive Level : Type := LevelDebug | LevelInfo | LevelWarn | LevelError.

Inductive Value (A : Type) : Type :=
  | AnyValue (a : A)
  | StringValue (s : string)
  | IntValue (n : Z).
Arguments AnyValue {A} a.
Arguments StringValue {A} s.
Arguments IntValue {A} n.

Record Record_ (A : Type) : Type := mkRecord {
  level : Level;
  message : string;
  attrs : list (string * Value A)
}.
Arguments mkRecord {A} _ _ _.
Arguments level {A} _.
Arguments message {A} _.
Arguments attrs {A} _.

Definition Any {A : Type} (key : string) (a : A) : string * Value A :=
  (key, AnyValue a).
Definition String {A : Type} (key : string) (s : string) : string * Value A :=
  (key, StringValue s).
Definition Int {A : Type} (key : string) (n : Z) : string * Value A :=
  (key, IntValue n).

(** [Logger.Warn] and [Logger.Debug] build the record handed to the
    handler. *)
Definition Warn {A : Type} (msg : string) (args : list (string * Value A))
    : Record_ A :=
  mkRecord LevelWarn msg args.
Definition Debug {A : Type} (msg : string) (args : list (string * Value A))
    : Record_ A :=
  mkRecord LevelDebug msg args.

End slog.

(** ** Package [net/http]: response headers *)
Module http.

(** [http.Header] is a [map[string][]string] keyed by canonical header
    names. *)
Definition Header := gmap string (list string).

(** [Header.Get]: the first value stored under [key], or the empty string.
    The only key the fetcher asks for, [Retry-After], is already in
    canonical form, so the canonicalisation step is the identity. *)
Definition Get (h : gmap string (list string)) (key : string) : string :=
  match h !! key with
  | Some (v :: _) => v
  | _ => ""
  end.

End http.

(** ** Package [resty.dev/v3]: the interface the repository programs against

    The library itself is not part of the repository.  A client is modelled
    by the settings its builder methods record; a response by the values of
    the accessors the fetcher calls. *)
Module resty.

Inductive CircuitBreakerState : Type :=
  | CircuitBreakerStateClosed
  | CircuitBreakerStateOpen
  | CircuitBreakerStateHalfOpen.

Record Request : Type := mkRequest {
  URL : string;
  Attempt : Z
}.

Record Response : Type := mkResponse {
  Request_ : Request;
  StatusCode : Z;
  Header : gmap string (list string);
  (** [resp.String()]: the body as text *)
  String : string
}.

Definition CircuitBreakerPolicy := Response -> bool.

(** Modelled from the spec: [resty.CircuitBreaker5xxPolicy] is a function
    of the library, whose body is not in the repository.  The spec
    describes it as "any 5xx response counts as failure". *)
Definition CircuitBreaker5xxPolicy : CircuitBreakerPolicy :=
  fun resp => (500 <=? StatusCode resp) && (StatusCode resp <=? 599).

Definition LogRecord := slog.Record_ CircuitBreakerState.

Record CircuitBreaker : Type := mkCircuitBreaker {
  failureThreshold : Z;
  successThreshold : Z;
  resetTimeout : time.Duration;
  policies : list CircuitBreakerPolicy;
  onStateChange :
    list (CircuitBreakerState -> CircuitBreakerState -> LogRecord)
}.

Definition NewCircuitBreakerWithCount
    (failure success : Z) (reset : time.Duration)
    (ps : list CircuitBreakerPolicy) : CircuitBreaker :=
  {| failureThreshold := failure;
     successThreshold := success;
     resetTimeout := reset;
     policies := ps;
     onStateChange := [] |}.

Definition OnStateChange
    (hook : CircuitBreakerState -> CircuitBreakerState -> LogRecord)
    (cb : CircuitBreaker) : CircuitBreaker :=
  {| failureThreshold := failureThreshold cb;
     successThreshold := successThreshold cb;
     resetTimeout := resetTimeout cb;
     policies := policies cb;
     onStateChange := onStateChange cb ++ [hook] |}.

Record Client : Type := mkClient {
  Timeout : time.Duration;
  RetryCount : Z;
  RetryWaitTime : time.Duration;
  RetryMaxWaitTime : time.Duration;
  circuitBreaker : option CircuitBreaker;
  retryHooks : list (Response -> option GoError -> LogRecord);
  Debug : bool
}.

(** [resty.New()]: a client on which nothing has been set yet.  Every
    numeric setting is overwritten by [NewClient] below before the client
    is returned. *)
Definition New : Client :=
  {| Timeout := 0;
     RetryCount := 0;
     RetryWaitTime := 0;
     RetryMaxWaitTime := 0;
     circuitBreaker := None;
     retryHooks := [];
     Debug := false |}.

Definition SetTimeout (d : time.Duration) (c : Client) : Client :=
  {| Timeout := d;
     RetryCount := RetryCount c;
     RetryWaitTime := RetryWaitTime c;
     RetryMaxWaitTime := RetryMaxWaitTime c;
     circuitBreaker := circuitBreaker c;
     retryHooks := retryHooks c;
     Debug := Debug c |}.

Definition SetRetryCount (n : Z) (c : Client) : Client :=
  {| Timeout := Timeout c;
     RetryCount := n;
     RetryWaitTime := RetryWaitTime c;
     RetryMaxWaitTime := RetryMaxWaitTime c;
     circuitBreaker := circuitBreaker c;
     retryHooks := retryHooks c;
     Debug := Debug c |}.

Definition SetRetryWaitTime (d : time.Duration) (c : Client) : Client :=
  {| Timeout := Timeout c;
     RetryCount := RetryCount c;
     RetryWaitTime := d;
     RetryMaxWaitTime := RetryMaxWaitTime c;
     circuitBreaker := circuitBreaker c;
     retryHooks := retryHooks c;
     Debug := Debug c |}.

Definition SetRetryMaxWaitTime (d : time.Duration) (c : Client) : Client :=
  {| Timeout := Timeout c;
     RetryCount := RetryCount c;
     RetryWaitTime := RetryWaitTime c;
     RetryMaxWaitTime := d;
     circuitBreaker := circuitBreaker c;
     retryHooks := retryHooks c;
     Debug := Debug c |}.

Definition SetCircuitBreaker (cb : CircuitBreaker) (c : Client) : Client :=
  {| Timeout := Timeout c;
     RetryCount := RetryCount c;
     RetryWaitTime := RetryWaitTime c;
     RetryMaxWaitTime := RetryMaxWaitTime c;
     circuitBreaker := Some cb;
     retryHooks := retryHooks c;
     Debug := Debug c |}.

Definition AddRetryHooks
    (hook : Response -> option GoError -> LogRecord) (c : Client) : Client :=
  {| Timeout := Timeout c;
     RetryCount := RetryCount c;
     RetryWaitTime := RetryWaitTime c;
     RetryMaxWaitTime := RetryMaxWaitTime c;
     circuitBreaker := circuitBreaker c;
     retryHooks := retryHooks c ++ [hook];
     Debug := Debug c |}.

Definition SetDebug (b : bool) (c : Client) : Client :=
  {| Timeout := Timeout c;
     RetryCount := RetryCount c;
     RetryWaitTime := RetryWaitTime c;
     RetryMaxWaitTime := RetryMaxWaitTime c;
     circuitBreaker := circuitBreaker c;
     retryHooks := retryHooks c;
     Debug := b |}.

End resty.

(** ** Package [github.com/samber/oops]: the error builder

    An error of this package carries what was attached to the builder it
    was made from, an inner error and a message.  [Errorf] makes the inner
    error from its formatted text and leaves the message empty; [Wrapf]
    takes an existing error as the inner error and its formatted text as
    the message.  Builders are values; every method returns a modified
    copy. *)
Module oops.

(** Values stored in the context map ([any] in Go): the fetcher stores
    strings and integers. *)
Inductive value : Type :=
  | StringVal (s : string)
  | IntVal (n : Z).

Record OopsError : Type := mkOopsError {
  domain : string;
  tags : list string;
  code : string;
  context : gmap string value;
  hint : string;
  (** the message [Wrapf] puts in front of the inner error *)
  msg : string;
  (** the inner error, the one [Unwrap] returns *)
  err : option GoError
}.

Definition OopsErrorBuilder := OopsError.

Definition In (d : string) : OopsErrorBuilder :=
  {| domain := d; tags := []; code := ""; context := ∅; hint := "";
     msg := ""; err := None |}.

Definition Tags (ts : list string) (o : OopsErrorBuilder) : OopsErrorBuilder :=
  {| domain := domain o; tags := tags o ++ ts; code := code o;
     context := context o; hint := hint o;
     msg := msg o; err := err o |}.

Definition Code (c : string) (o : OopsErrorBuilder) : OopsErrorBuilder :=
  {| domain := domain o; tags := tags o; code := c;
     context := context o; hint := hint o;
     msg := msg o; err := err o |}.

Definition With (key : string) (v : value) (o : OopsErrorBuilder)
    : OopsErrorBuilder :=
  {| domain := domain o; tags := tags o; code := code o;
     context := <[key := v]> (context o); hint := hint o;
     msg := msg o; err := err o |}.

Definition Hint (h : string) (o : OopsErrorBuilder) : OopsErrorBuilder :=
  {| domain := domain o; tags := tags o; code := code o;
     context := context o; hint := h;
     msg := msg o; err := err o |}.

(** [Errorf(format, args...)]; the argument is the formatted text.  The
    inner error is [fmt.Errorf(format, args...)], an error with that text;
    the message stays as the builder has it. *)
Definition Errorf (formatted : string) (o : OopsErrorBuilder) : OopsError :=
  {| domain := domain o; tags := tags o; code := code o;
     context := context o; hint := hint o;
     msg := msg o; err := Some (errorString formatted) |}.

(** [Wrapf(err, format, args...)] for a non-nil error [cause]: the inner
    error is [cause], the message the formatted text. *)
Definition Wrapf (cause : GoError) (formatted : string)
    (o : OopsErrorBuilder) : OopsError :=
  {| domain := domain o; tags := tags o; code := code o;
     context := context o; hint := hint o;
     msg := formatted; err := Some cause |}.

(** [OopsError.Unwrap()]. *)
Definition Unwrap (e : OopsError) : option GoError := err e.

(** [OopsError.Error()]: the text of the inner error, with the message and
    a colon in front when there is a message. *)
Definition Error (e : OopsError) : string :=
  match err e with
  | Some inner =>
      if String.eqb (msg e) "" then errorText inner
      else msg e +:+ ": " +:+ errorText inner
  | None => msg e
  end.

(** [OopsError.Public()]: the message set with the builder method
    [Public].  No builder chain of the repository calls that method, so the
    error record has no field for it and the message is empty. *)
Definition Public (e : OopsError) : string := "".

(** [oops.GetPublic(err, defaultPublicMessage)]. *)
Definition GetPublic (err : OopsError) (defaultPublicMessage : string)
    : string :=
  let msg := Public err in
  if String.eqb msg "" then defaultPublicMessage else msg.

End oops.

(** ** Package [internal/errors] *)
Module errs.

Definition CodeNotFound : string := "not_found".
Definition CodeInvalidEntry : string := "invalid_entry".
Definition CodeNetworkFailure : string := "network_failure".
Definition CodeRateLimited : string := "rate_limited".
Definition CodeTimeout : string := "timeout".
Definition CodeConfigLoad : string := "config_load".
Definition CodeConfigParse : string := "config_parse".
Definition CodeConfigWrite : string := "config_write".
Definition CodeRepoNotFound : string := "repo_not_found".
Definition CodePathNotFound : string := "path_not_found".
Definition CodeAPIError : string := "api_error".

Definition DomainRegistry : string := "registry".
Definition DomainConfig : string := "config".
Definition DomainHTTP : string := "http".
Definition DomainGitHub : string := "github".
Definition DomainGenerator : string := "generator".

Definition HTTPErr : oops.OopsErrorBuilder :=
  oops.In DomainHTTP |> oops.Tags ["http"; "network"].

Definition RegistryErr : oops.OopsErrorBuilder :=
  oops.In DomainRegistry |> oops.Tags ["registry"].

End errs.

(** ** Package [internal/http] *)
Module httpclient.

(** *** config.go *)

Record Config : Type := mkConfig {
  Timeout : time.Duration;
  RetryCount : Z;
  RetryWaitTime : time.Duration;
  RetryMaxWaitTime : time.Duration;
  Verbose : bool
}.

Definition defaultTimeout : time.Duration := 30 * time.Second.
Definition defaultRetryCount : Z := 3.
Definition defaultRetryWaitTime : time.Duration := 100 * time.Millisecond.
Definition defaultRetryMaxWaitTime : time.Duration := 2 * time.Second.

Definition DefaultConfig : Config :=
  {| Timeout := defaultTimeout;
     RetryCount := defaultRetryCount;
     RetryWaitTime := defaultRetryWaitTime;
     RetryMaxWaitTime := defaultRetryMaxWaitTime;
     Verbose := false |}.

(** *** client.go *)

Definition cbFailureThreshold : Z := 3.
Definition cbSuccessThreshold : Z := 1.
Definition cbResetTimeout : time.Duration := 30 * time.Second.

Definition NewClient (cfg : option Config) : resty.Client :=
  let cfg := match cfg with
             | None => DefaultConfig
             | Some cfg => cfg
             end in
  let cb :=
    resty.NewCircuitBreakerWithCount
      cbFailureThreshold
      cbSuccessThreshold
      cbResetTimeout
      [resty.CircuitBreaker5xxPolicy]
    |> resty.OnStateChange (fun oldState newState =>
         slog.Warn "circuit breaker state changed"
           [slog.Any "from" oldState; slog.Any "to" newState]) in
  let client :=
    resty.New
    |> resty.SetTimeout (Timeout cfg)
    |> resty.SetRetryCount (RetryCount cfg)
    |> resty.SetRetryWaitTime (RetryWaitTime cfg)
    |> resty.SetRetryMaxWaitTime (RetryMaxWaitTime cfg)
    |> resty.SetCircuitBreaker cb
    |> resty.AddRetryHooks (fun res _ =>
         slog.Debug "retrying request"
           [slog.String "url" (resty.URL (resty.Request_ res));
            slog.Int "attempt" (resty.Attempt (resty.Request_ res))]) in
  if Verbose cfg then client |> resty.SetDebug true else client.

(** *** fetch.go *)

Definition statusNotFound : Z := 404.
Definition statusRateLimited : Z := 429.
Definition statusBadRequest : Z := 400.

Record Fetcher : Type := mkFetcher {
  client : resty.Client
}.

Definition NewFetcher (cfg : option Config) : Fetcher :=
  {| client := NewClient cfg |}.

(** The result of [client.R().Get(url)]: the Go pair [(resp, err)]. *)
Definition GetResult : Type := resty.Response * option GoError.

Section Fetching.

Context {World : Type}.

(** [f.client.R().Get(url)], including every retry and circuit-breaker
    decision the client takes on the way. *)
Variable Get : resty.Client -> string -> World -> GetResult * World.

Definition Fetch (f : Fetcher) (url : string) (w : World)
    : (string * option oops.OopsError) * World :=
  let '((resp, err), w') := Get (client f) url w in
  match err with
  | Some err =>
      ("", Some (errs.HTTPErr
                 |> oops.Code errs.CodeNetworkFailure
                 |> oops.With "url" (oops.StringVal url)
                 |> oops.Wrapf err "failed to fetch content"),
       w')
  | None =>
      if resty.StatusCode resp =? statusNotFound then
        ("", Some (errs.HTTPErr
                   |> oops.Code errs.CodeNotFound
                   |> oops.With "url" (oops.StringVal url)
                   |> oops.With "status" (oops.IntVal (resty.StatusCode resp))
                   |> oops.Errorf "resource not found"),
         w')
      else if resty.StatusCode resp =? statusRateLimited then
        ("", Some (errs.HTTPErr
                   |> oops.Code errs.CodeRateLimited
                   |> oops.With "url" (oops.StringVal url)
                   |> oops.With "retry_after"
                        (oops.StringVal
                           (http.Get (resty.Header resp) "Retry-After"))
                   |> oops.Hint "Wait before retrying or use a different source"
                   |> oops.Errorf "rate limited by server"),
         w')
      else if resty.StatusCode resp >=? statusBadRequest then
        ("", Some (errs.HTTPErr
                   |> oops.Code errs.CodeNetworkFailure
                   |> oops.With "url" (oops.StringVal url)
                   |> oops.With "status" (oops.IntVal (resty.StatusCode resp))
                   |> oops.Errorf
                        ("HTTP error: " +:+ pretty (resty.StatusCode resp))),
         w')
      else
        (resty.String resp, None, w')
  end.

Definition FetchLLMsTxt (f : Fetcher) (url : string) (fullURL : option string)
    (full : bool) (w : World) : (string * option oops.OopsError) * World :=
  let targetURL :=
    match full, fullURL with
    | true, Some fullURL => fullURL
    | _, _ => url
    end in
  Fetch f targetURL w.

End Fetching.

Section Closing.

Context {World : Type}.

(** [client.Close()] of the HTTP library: it releases the client's
    resources, an effect on the world, and reports an error or nil. *)
Variable clientClose : resty.Client -> World -> option GoError * World.

Definition Close (f : Fetcher) (w : World) : option GoError * World :=
  clientClose (client f) w.

End Closing.

End httpclient.

(** ** The kinds of error a caller of the fetcher tells apart

    The kind is read off the returned error value alone: from its code and,
    for the code [network_failure], from whether its context has a [status]
    entry.  An error with any other code has no kind. *)
Module errorkind.



End errorkind.

(** ** Concrete worlds used to evaluate the fetcher *)
Module examples.

Definition primaryURL : string := "https://example.com/llms.txt".

Definition fetcher : httpclient.Fetcher := httpclient.NewFetcher None.

Definition request (url : string) : resty.Request :=
  {| resty.URL := url; resty.Attempt := 1 |}.

Definition response (url : string) (status : Z)
    (header : gmap string (list string)) (body : string) : resty.Response :=
  {| resty.Request_ := request url;
     resty.StatusCode := status;
     resty.Header := header;
     resty.String := body |}.

(** A server that answers every request with the given status, header and
    body.  The world is trivial. *)
Definition answering (status : Z) (header : gmap string (list string))
    (body : string) (_ : resty.Client) (url : string) (w : unit)
    : httpclient.GetResult * unit :=
  ((response url status header body, None), w).

(** A server that answers 200 with the requested URL as the body. *)
Definition echoing (_ : resty.Client) (url : string) (w : unit)
    : httpclient.GetResult * unit :=
  ((response url 200 ∅ url, None), w).

(** A host that cannot be reached: no response, only an error. *)
Definition refusing (_ : resty.Client) (url : string) (w : unit)
    : httpclient.GetResult * unit :=
  ((response url 0 ∅ "", Some (errorString "connection refused")), w).

Definition retryAfter5 : gmap string (list string) :=
  {[ "Retry-After" := ["5"] ]}.


End examples.

(** ** Package [strings], as far as the registry uses it

    Go strings are byte sequences; so are the strings of the embedding. *)
Module strings.

(** [utf8.RuneSelf]: the bytes below it are the ASCII characters. *)
Definition RuneSelf : N := 128.

Fixpoint isASCII (s : string) : bool :=
  match s with
  | EmptyString => true
  | String c s' => (N_of_ascii c <? RuneSelf)%N && isASCII s'
  end.

(** ['A' <= c && c <= 'Z'], then [c += 'a' - 'A']. *)
Definition isUpperByte (c : ascii) : bool :=
  ((65 <=? N_of_ascii c) && (N_of_ascii c <=? 90))%N.

Definition toLowerByte (c : ascii) : ascii :=
  if isUpperByte c then ascii_of_N (N_of_ascii c + 32) else c.

Fixpoint lowerASCII (s : string) : string :=
  match s with
  | EmptyString => EmptyString
  | String c s' => String (toLowerByte c) (lowerASCII s')
  end.

(** The flag [hasUpper] computed by [ToLower]: some byte is an upper-case
    ASCII letter. *)
Fixpoint hasUpper (s : string) : bool :=
  match s with
  | EmptyString => false
  | String c s' => isUpperByte c || hasUpper s'
  end.

(** [strings.IndexByte(s, c) >= 0]. *)
Fixpoint hasByte (c : ascii) (s : string) : bool :=
  match s with
  | EmptyString => false
  | String c' s' => Ascii.eqb c' c || hasByte c s'
  end.

Section ToLower.

(** [strings.Map(unicode.ToLower, s)], the path [ToLower] takes for a string
    with a byte outside ASCII.  The Unicode tables are the library's. *)
Variable mapUnicodeToLower : string -> string.

(** [strings.ToLower]: an ASCII-only string is lowered byte by byte,
    any other string rune by rune. *)
Definition ToLower (s : string) : string :=
  if isASCII s then lowerASCII s else mapUnicodeToLower s.

End ToLower.

(** [strings.ReplaceAll(s, old, new)] for a pattern [old] of one byte, which
    is how the registry calls it: every occurrence of the byte is replaced. *)
Fixpoint ReplaceAll (s : string) (old : ascii) (new : string) : string :=
  match s with
  | EmptyString => EmptyString
  | String c s' =>
      if Ascii.eqb c old
      then new +:+ ReplaceAll s' old new
      else String c (ReplaceAll s' old new)
  end.

End strings.

(** ** Package [sort]

    [sort.Slice] orders a slice by a [less] function and promises nothing
    about elements neither of which is less than the other.  The embedding
    sorts with a merge sort; where the registry sorts, the keys compared are
    pairwise different, so every sorting algorithm returns the same slice. *)
Module sort.

Definition Slice {A : Type} (less : A -> A -> bool) (l : list A) : list A :=
  merge_sort (fun x y => less y x = false)
    (H := fun x y => decide (less y x = false)) l.

(** [sort.Strings]: increasing order, strings compared byte by byte. *)
Definition Strings (l : list string) : list string :=
  Slice String.ltb l.

End sort.

(** The orders used to state that a slice is sorted by a string key:
    [key_less] is the [less] function the registry passes to [sort.Slice],
    [key_lt] its graph, [key_not_gt] the order a sort by [key_less]
    establishes between an element and the ones after it. *)
Section KeyOrder.

Context {A : Type} (key : A -> string).

Definition key_less (a b : A) : bool := String.ltb (key a) (key b).

Definition key_lt (a b : A) : Prop := String.ltb (key a) (key b) = true.

Definition key_not_gt (a b : A) : Prop := key_less b a = false.

End KeyOrder.

(** ** Package [internal/registry] *)
Module registry.

(** *** types.go *)

Record Entry : Type := mkEntry {
  Key : string;
  Name : string;
  Domain : string;
  Description : string;
  Category : string;
  LLMsURL : string;
  LLMsFullURL : option string
}.

(** *** loader.go *)

Module DirectoryEntry.
Record t : Type := mk {
  Key : string;
  Name : string;
  Domain : string;
  LLMsURL : string;
  LLMsFullURL : option string
}.
End DirectoryEntry.

Module WebsiteEntry.
Record t : Type := mk {
  Name : string;
  Domain : string;
  Description : string;
  LLMsTxtURL : string;
  LLMsFullTxtURL : option string;
  Category : string
}.
End WebsiteEntry.

(** The package variable [entries] is a [map[string]*Entry].  It is passed
    explicitly; updating an entry through its pointer is storing the updated
    entry under the same key.  The two embedded JSON documents enter as the
    slices [json.Unmarshal] decodes them to. *)

Definition loadDirectoryEntries (dirEntries : list DirectoryEntry.t)
    (entries : gmap string Entry) : gmap string Entry :=
  foldl (fun entries e =>
           <[DirectoryEntry.Key e :=
               {| Key := DirectoryEntry.Key e;
                  Name := DirectoryEntry.Name e;
                  Domain := DirectoryEntry.Domain e;
                  Description := "";
                  Category := "";
                  LLMsURL := DirectoryEntry.LLMsURL e;
                  LLMsFullURL := DirectoryEntry.LLMsFullURL e |}]> entries)
        entries dirEntries.

Section Registry.

Variable mapUnicodeToLower : string -> string.

Definition slugify (name : string) : string :=
  let s := strings.ToLower mapUnicodeToLower name in
  let s := strings.ReplaceAll s " "%char "-" in
  s.

Definition loadWebsiteEntries (webEntries : list WebsiteEntry.t)
    (entries : gmap string Entry) : gmap string Entry :=
  foldl (fun entries e =>
           let key := slugify (WebsiteEntry.Name e) in
           match entries !! key with
           | Some existing =>
               <[key :=
                   {| Key := Key existing;
                      Name := Name existing;
                      Domain := Domain existing;
                      Description := WebsiteEntry.Description e;
                      Category := WebsiteEntry.Category e;
                      LLMsURL := LLMsURL existing;
                      LLMsFullURL := LLMsFullURL existing |}]> entries
           | None =>
               <[key :=
                   {| Key := key;
                      Name := WebsiteEntry.Name e;
                      Domain := WebsiteEntry.Domain e;
                      Description := WebsiteEntry.Description e;
                      Category := WebsiteEntry.Category e;
                      LLMsURL := WebsiteEntry.LLMsTxtURL e;
                      LLMsFullURL := WebsiteEntry.LLMsFullTxtURL e |}]> entries
           end)
        entries webEntries.

(** [init]: the map every other function of the package reads. *)
Definition init (dirEntries : list DirectoryEntry.t)
    (webEntries : list WebsiteEntry.t) : gmap string Entry :=
  loadWebsiteEntries webEntries (loadDirectoryEntries dirEntries ∅).

(** *** registry.go *)

(** The verb [%q] of package [fmt]: the Go-quoted form of a string. *)
Variable quote : string -> string.

Variable entries : gmap string Entry.

Definition Lookup (key : string) : option Entry * option oops.OopsError :=
  let k := strings.ToLower mapUnicodeToLower key in
  match entries !! k with
  | Some entry => (Some entry, None)
  | None =>
      (None,
       Some (errs.RegistryErr
             |> oops.Code errs.CodeNotFound
             |> oops.With "key" (oops.StringVal key)
             |> oops.Hint "Use 'llxt list' to see available sources or 'llxt add' to add a new one"
             |> oops.Errorf
                  ("source " +:+ quote key +:+ " not found in registry")))
  end.

(** Ranging over a Go map visits the entries in an unspecified order;
    [map_to_list] is one such order. *)
Definition List : list Entry :=
  let result := (map_to_list entries).*2 in
  sort.Slice (fun a b => String.ltb (Key a) (Key b)) result.

Definition ListByCategory (category : string) : list Entry :=
  let cat := strings.ToLower mapUnicodeToLower category in
  let result :=
    List.filter
      (fun e =>
         String.eqb (strings.ToLower mapUnicodeToLower (Category e)) cat)
      (map_to_list entries).*2 in
  sort.Slice (fun a b => String.ltb (Key a) (Key b)) result.

Definition Count : Z := Z.of_nat (size entries).

Definition Keys : list string :=
  let keys := (map_to_list entries).*1 in
  sort.Strings keys.

End Registry.

(** The invariant of the package variable: an entry is stored under its own
    key. *)
Definition keyed (entries : gmap string Entry) : Prop :=
  forall (k : string) (e : Entry), entries !! k = Some e -> Key e = k.

(** Two entries that differ at most in description and category. *)
Definition same_source (e e' : Entry) : Prop :=
  Key e' = Key e /\ Name e' = Name e /\ Domain e' = Domain e /\
  LLMsURL e' = LLMsURL e /\ LLMsFullURL e' = LLMsFullURL e.

End registry.

(** ** Package [internal/ui]

    The progress writer renders to stderr on a goroutine of its own; what is
    kept of it is the tracker it was given and the mark the tracker got. *)
Module ui.

Definition trackerLength : Z := 25.
Definition sleepDuration : time.Duration := 100 * time.Millisecond.

Inductive Mark : Type := MarkAsDone | MarkAsErrored.

Record Tracker : Type := mkTracker {
  Message : string;
  Total : Z;
  mark : Mark
}.

(** [WithSpinner(message, fn)].  The closure [fn] may assign variables it
    captured and act on the world; both are its state [S]. *)
Definition WithSpinner {S E : Type} (message : string)
    (fn : S -> option E * S) (s : S) : (option E * Tracker) * S :=
  let '(err, s') := fn s in
  let tracker :=
    {| Message := message;
       Total := 0;
       mark := match err with
               | Some _ => MarkAsErrored
               | None => MarkAsDone
               end |} in
  ((err, tracker), s').

End ui.

(** ** Package [internal/cli]: exit codes *)
Module llxtcli.

Definition ExitSuccess : Z := 0.
Definition ExitGeneralError : Z := 1.
Definition ExitNotFound : Z := 2.
Definition ExitNetworkError : Z := 3.
Definition ExitConfigError : Z := 4.
Definition ExitInvalidInput : Z := 5.
Definition ExitRateLimited : Z := 6.

End llxtcli.

(** ** Package [github.com/urfave/cli/v3], as far as the command uses it *)
Module cli.

(** A parsed command line: the positional arguments and the value of every
    boolean flag, by name. *)
Record Command : Type := mkCommand {
  Args : list string;
  Bool : string -> bool
}.

(** [cmd.Args().First()]: the first argument, or the empty string. *)
Definition First (args : list string) : string :=
  match args with
  | a :: _ => a
  | [] => ""
  end.

(** The error made by [cli.Exit(message, exitCode)]. *)
Record ExitError : Type := Exit {
  message : string;
  exitCode : Z
}.

End cli.

(** ** Package [internal/cli/commands] *)
Module commands.

(** What a run of the action leaves behind: the error it returns, the text
    printed to stdout, the trackers shown on stderr, and the world.  A nil
    pointer dereference ends the run with a panic instead. *)
Inductive Outcome (World : Type) : Type :=
  | Returned (err : option cli.ExitError) (stdout : string)
      (stderr : list ui.Tracker) (w : World)
  | Panicked.
Arguments Returned {World} err stdout stderr w.
Arguments Panicked {World}.

(** The line feed of the usage message. *)
Definition LF : string := String (ascii_of_N 10) EmptyString.

Section FetchAction.

Context {World : Type}.

Variable mapUnicodeToLower : string -> string.
Variable quote : string -> string.
Variable entries : gmap string registry.Entry.
Variable Get :
  resty.Client -> string -> World -> httpclient.GetResult * World.
Variable clientClose : resty.Client -> World -> option GoError * World.

Definition fetchAction (cmd : cli.Command) (w : World) : Outcome World :=
  let name := cli.First (cli.Args cmd) in
  if String.eqb name "" then
    Returned
      (Some (cli.Exit ("name is required" +:+ LF +:+ LF
                       +:+ "Usage: llxt fetch <name>")
               llxtcli.ExitInvalidInput))
      "" [] w
  else
    let full := cli.Bool cmd "full" in
    let quiet := cli.Bool cmd "quiet" in
    let verbose := cli.Bool cmd "verbose" in
    let '(entry, err) :=
      registry.Lookup mapUnicodeToLower quote entries name in
    match err with
    | Some err =>
        let msg :=
          oops.GetPublic err ("Source " +:+ quote name +:+ " not found") in
        Returned (Some (cli.Exit msg llxtcli.ExitNotFound)) "" [] w
    | None =>
        let cfg :=
          {| httpclient.Timeout := httpclient.Timeout httpclient.DefaultConfig;
             httpclient.RetryCount :=
               httpclient.RetryCount httpclient.DefaultConfig;
             httpclient.RetryWaitTime :=
               httpclient.RetryWaitTime httpclient.DefaultConfig;
             httpclient.RetryMaxWaitTime :=
               httpclient.RetryMaxWaitTime httpclient.DefaultConfig;
             httpclient.Verbose := verbose |} in
        let fetcher := httpclient.NewFetcher (Some cfg) in
        match entry with
        | None => Panicked
        | Some entry =>
            (* the closure assigns [content]; its state is that variable
               and the world *)
            let fetchFn :=
              fun s : string * World =>
                let '((content, fetchErr), w') :=
                  httpclient.FetchLLMsTxt Get fetcher
                    (registry.LLMsURL entry) (registry.LLMsFullURL entry)
                    full s.2 in
                (fetchErr, (content, w')) in
            let '((err, stderr), (content, w1)) :=
              if quiet then
                let '(err, s) := fetchFn ("", w) in ((err, []), s)
              else
                let '((err, tracker), s) :=
                  ui.WithSpinner ("Fetching " +:+ name +:+ "...")
                    fetchFn ("", w) in
                ((err, [tracker]), s) in
            (* [defer fetcher.Close()] runs when the function returns *)
            let closed := (httpclient.Close clientClose fetcher w1).2 in
            match err with
            | Some err =>
                let msg := oops.GetPublic err "Failed to fetch llms.txt" in
                Returned (Some (cli.Exit msg llxtcli.ExitNetworkError))
                  "" stderr closed
            | None =>
                Returned None content stderr closed
            end
        end
    end.

End FetchAction.

End commands.

(** ** Sample registry documents used to evaluate the registry *)
Module registry_examples.

(** A Unicode lowering that is never reached on ASCII input. *)
Definition noUnicode (s : string) : string := s.

(** A stand-in for the verb [%q]: the string between double quotes. *)
Definition quoted (s : string) : string :=
  String (ascii_of_N 34) (s +:+ String (ascii_of_N 34) EmptyString).

Definition dirVite : registry.DirectoryEntry.t :=
  {| registry.DirectoryEntry.Key := "vite";
     registry.DirectoryEntry.Name := "Vite";
     registry.DirectoryEntry.Domain := "vite.dev";
     registry.DirectoryEntry.LLMsURL := "https://vite.dev/llms.txt";
     registry.DirectoryEntry.LLMsFullURL :=
       Some "https://vite.dev/llms-full.txt" |}.

(** A directory entry whose key is not in lower case. *)
Definition dirBun : registry.DirectoryEntry.t :=
  {| registry.DirectoryEntry.Key := "Bun";
     registry.DirectoryEntry.Name := "Bun";
     registry.DirectoryEntry.Domain := "bun.sh";
     registry.DirectoryEntry.LLMsURL := "https://bun.sh/llms.txt";
     registry.DirectoryEntry.LLMsFullURL := None |}.

(** A website whose slug is the key of [dirVite]. *)
Definition webVite : registry.WebsiteEntry.t :=
  {| registry.WebsiteEntry.Name := "Vite";
     registry.WebsiteEntry.Domain := "vitejs.example";
     registry.WebsiteEntry.Description := "Frontend tooling";
     registry.WebsiteEntry.LLMsTxtURL := "https://vitejs.example/llms.txt";
     registry.WebsiteEntry.LLMsFullTxtURL := None;
     registry.WebsiteEntry.Category := "Tools" |}.

(** A website whose name has a space. *)
Definition webNext : registry.WebsiteEntry.t :=
  {| registry.WebsiteEntry.Name := "Next JS";
     registry.WebsiteEntry.Domain := "nextjs.example";
     registry.WebsiteEntry.Description := "React framework";
     registry.WebsiteEntry.LLMsTxtURL := "https://nextjs.example/llms.txt";
     registry.WebsiteEntry.LLMsFullTxtURL :=
       Some "https://nextjs.example/llms-full.txt";
     registry.WebsiteEntry.Category := "tools" |}.

Definition dirEntries : list registry.DirectoryEntry.t := [dirVite; dirBun].

Definition webEntries : list registry.WebsiteEntry.t := [webVite; webNext].

Definition entries : gmap string registry.Entry :=
  registry.init noUnicode dirEntries webEntries.

(** The entry [entries] holds under the key [vite]: the directory entry
    with the description and category of the website. *)
Definition entryVite : registry.Entry :=
  {| registry.Key := "vite";
     registry.Name := "Vite";
     registry.Domain := "vite.dev";
     registry.Description := "Frontend tooling";
     registry.Category := "Tools";
     registry.LLMsURL := "https://vite.dev/llms.txt";
     registry.LLMsFullURL := Some "https://vite.dev/llms-full.txt" |}.

End registry_examples.

(** ** Command lines and servers used to evaluate the fetch command *)
Module command_examples.

(** [llxt fetch <args>] with the given values of [--full], [--quiet] and
    [--verbose]; every other boolean flag is off. *)
Definition command (args : list string) (full quiet verbose : bool)
    : cli.Command :=
  {| cli.Args := args;
     cli.Bool := fun flag =>
       if String.eqb flag "full" then full
       else if String.eqb flag "quiet" then quiet
       else if String.eqb flag "verbose" then verbose
       else false |}.

(** Closing the client leaves the world alone. *)
Definition closing (_ : resty.Client) (w : unit) : option GoError * unit :=
  (None, w).

(** A world that records the URLs requested and whether the client was
    closed; every request is answered 200 with the URL as the body. *)
Definition logging (_ : resty.Client) (url : string)
    (w : list string * bool) : httpclient.GetResult * (list string * bool) :=
  ((examples.response url 200 ∅ url, None), ((w.1 ++ [url])%list, w.2)).

Definition logging_close (_ : resty.Client) (w : list string * bool)
    : option GoError * (list string * bool) :=
  (None, (w.1, true)).

End command_examples.

(** ** Properties of the fetcher and of the client builder *)

Import httpclient.

Section FetchFacts.

Context {World : Type}.
Variable Get : resty.Client -> string -> World -> GetResult * World.

(** The five return statements of [Fetch], one lemma each. *)

Lemma Fetch_transport (f : Fetcher) (url : string) (w w' : World)
    (resp : resty.Response) (cause : GoError) :
  Get (client f) url w = ((resp, Some cause), w') ->
  Fetch Get f url w =
    ("", Some (errs.HTTPErr
               |> oops.Code errs.CodeNetworkFailure
               |> oops.With "url" (oops.StringVal url)
               |> oops.Wrapf cause "failed to fetch content"), w').
Proof. intros HGet. unfold Fetch. now rewrite HGet. Qed.

Lemma Fetch_404 (f : Fetcher) (url : string) (w w' : World)
    (resp : resty.Response) :
  Get (client f) url w = ((resp, None), w') ->
  resty.StatusCode resp = 404 ->
  Fetch Get f url w =
    ("", Some (errs.HTTPErr
               |> oops.Code errs.CodeNotFound
               |> oops.With "url" (oops.StringVal url)
               |> oops.With "status" (oops.IntVal 404)
               |> oops.Errorf "resource not found"), w').
Proof. intros HGet Hc. unfold Fetch. rewrite HGet, Hc. reflexivity. Qed.

Lemma Fetch_429 (f : Fetcher) (url : string) (w w' : World)
    (resp : resty.Response) :
  Get (client f) url w = ((resp, None), w') ->
  resty.StatusCode resp = 429 ->
  Fetch Get f url w =
    ("", Some (errs.HTTPErr
               |> oops.Code errs.CodeRateLimited
               |> oops.With "url" (oops.StringVal url)
               |> oops.With "retry_after"
                    (oops.StringVal (http.Get (resty.Header resp) "Retry-After"))
               |> oops.Hint "Wait before retrying or use a different source"
               |> oops.Errorf "rate limited by server"), w').
Proof. intros HGet Hc. unfold Fetch. rewrite HGet, Hc. reflexivity. Qed.

Lemma Fetch_4xx_5xx (f : Fetcher) (url : string) (w w' : World)
    (resp : resty.Response) :
  Get (client f) url w = ((resp, None), w') ->
  400 <= resty.StatusCode resp ->
  resty.StatusCode resp <> 404 ->
  resty.StatusCode resp <> 429 ->
  Fetch Get f url w =
    ("", Some (errs.HTTPErr
               |> oops.Code errs.CodeNetworkFailure
               |> oops.With "url" (oops.StringVal url)
               |> oops.With "status" (oops.IntVal (resty.StatusCode resp))
               |> oops.Errorf
                    ("HTTP error: " +:+ pretty (resty.StatusCode resp))), w').
Proof.
  intros HGet Hge H404 H429. unfold Fetch. rewrite HGet.
  unfold statusNotFound, statusRateLimited, statusBadRequest.
  destruct (Z.eqb_spec (resty.StatusCode resp) 404) as [E | _]; [contradiction |].
  destruct (Z.eqb_spec (resty.StatusCode resp) 429) as [E | _]; [contradiction |].
  rewrite Z.geb_leb.
  destruct (Z.leb_spec 400 (resty.StatusCode resp)) as [_ | Hlt]; [reflexivity | lia].
Qed.

Lemma Fetch_success (f : Fetcher) (url : string) (w w' : World)
    (resp : resty.Response) :
  Get (client f) url w = ((resp, None), w') ->
  resty.StatusCode resp < 400 ->
  Fetch Get f url w = (resty.String resp, None, w').
Proof.
  intros HGet Hlt. unfold Fetch. rewrite HGet.
  unfold statusNotFound, statusRateLimited, statusBadRequest.
  destruct (Z.eqb_spec (resty.StatusCode resp) 404) as [E | _]; [lia |].
  destruct (Z.eqb_spec (resty.StatusCode resp) 429) as [E | _]; [lia |].
  rewrite Z.geb_leb.
  destruct (Z.leb_spec 400 (resty.StatusCode resp)) as [Hge | _]; [lia | reflexivity].
Qed.

End FetchFacts.

(** Case analysis on the status code along the branches of [Fetch]. *)
Ltac status_cases c :=
  destruct (Z.eq_dec c 404) as [?H404 | ?H404];
  [| destruct (Z.eq_dec c 429) as [?H429 | ?H429];
     [| destruct (Z_lt_le_dec c 400) as [?Hlt | ?Hge]]].

(** C1.  When the client hands back a response with status [c], [Fetch]
    returns the [not_found] error exactly when [c = 404], the [rate_limited]
    error exactly when [c = 429], the [network_failure] error that stands for
    every other client or server error exactly when [c >= 400] and [c] is
    neither 404 nor 429, and the body with a nil error exactly when
    [c < 400]. *)
Theorem Fetch_status_classification
    {World : Type} (Get : resty.Client -> string -> World -> GetResult * World)
    (f : Fetcher) (url : string) (w w' : World) (resp : resty.Response) :
  Get (client f) url w = ((resp, None), w') ->
  let c := resty.StatusCode resp in
  let r := (Fetch Get f url w).1 in
  (oops.code <$> r.2 = Some errs.CodeNotFound <-> c = 404) /\
  (oops.code <$> r.2 = Some errs.CodeRateLimited <-> c = 429) /\
  (oops.code <$> r.2 = Some errs.CodeNetworkFailure <->
     400 <= c /\ c <> 404 /\ c <> 429) /\
  (r = (resty.String resp, None) <-> c < 400).
Proof.
  intros HGet c r. subst r c.
  status_cases (resty.StatusCode resp).
  - rewrite (Fetch_404 Get f url w w' resp HGet H404). cbn.
    repeat split; intros; try lia; try discriminate; try reflexivity.
  - rewrite (Fetch_429 Get f url w w' resp HGet H429). cbn.
    repeat split; intros; try lia; try discriminate; try reflexivity.
  - rewrite (Fetch_success Get f url w w' resp HGet Hlt). cbn.
    repeat split; intros; try lia; try discriminate; try reflexivity.
  - rewrite (Fetch_4xx_5xx Get f url w w' resp HGet Hge H404 H429). cbn.
    repeat split; intros; try lia; try discriminate; try reflexivity.
Qed.

Lemma Fetch_status_classification_witness :
  let r := (Fetch (examples.answering 503 ∅ "unavailable")
              examples.fetcher examples.primaryURL tt).1 in
  (oops.code <$> r.2 = Some errs.CodeNotFound <-> 503 = 404) /\
  (oops.code <$> r.2 = Some errs.CodeRateLimited <-> 503 = 429) /\
  (oops.code <$> r.2 = Some errs.CodeNetworkFailure <->
     400 <= 503 /\ 503 <> 404 /\ 503 <> 429) /\
  (r = ("unavailable", None) <-> 503 < 400).
Proof.
  exact (Fetch_status_classification
           (examples.answering 503 ∅ "unavailable")
           examples.fetcher examples.primaryURL tt tt
           (examples.response examples.primaryURL 503 ∅ "unavailable")
           eq_refl).
Defined.

(** C10.  Whenever [Fetch] returns a non-nil error the content it returns is
    the empty string; a non-empty content only ever comes with a nil
    error. *)
Theorem Fetch_error_has_empty_content
    {World : Type} (Get : resty.Client -> string -> World -> GetResult * World)
    (f : Fetcher) (url : string) (w : World) :
  let r := (Fetch Get f url w).1 in
  (r.2 <> None -> r.1 = "") /\ (r.1 <> "" -> r.2 = None).
Proof.
  cbn zeta. unfold Fetch.
  destruct (Get (client f) url w) as [[resp [cause |]] w']; cbn.
  - split; [reflexivity | congruence].
  - destruct (resty.StatusCode resp =? statusNotFound); cbn;
      [split; [reflexivity | congruence] |].
    destruct (resty.StatusCode resp =? statusRateLimited); cbn;
      [split; [reflexivity | congruence] |].
    destruct (resty.StatusCode resp >=? statusBadRequest); cbn;
      [split; [reflexivity | congruence] |].
    split; [congruence | reflexivity].
Qed.

Lemma Fetch_error_has_empty_content_witness :
  let r := (Fetch examples.refusing examples.fetcher examples.primaryURL tt).1 in
  r.2 <> None /\ r.1 = "".
Proof.
  cbn zeta. split.
  - discriminate.
  - apply (Fetch_error_has_empty_content
             examples.refusing examples.fetcher examples.primaryURL tt).
    discriminate.
Defined.

(** C5, as stated, fails on an alternate URL that is present but empty: with
    [full = true] the empty alternate is fetched, and the result is not that
    of fetching the primary URL. *)
Lemma FetchLLMsTxt_fetches_empty_alternate :
  FetchLLMsTxt examples.echoing examples.fetcher
      examples.primaryURL (Some "") true tt
    = Fetch examples.echoing examples.fetcher "" tt
  /\
  FetchLLMsTxt examples.echoing examples.fetcher
      examples.primaryURL (Some "") true tt
    <> Fetch examples.echoing examples.fetcher examples.primaryURL tt.
Proof.
  split.
  - reflexivity.
  - vm_compute. discriminate.
Qed.

(** C5, amended.  [FetchLLMsTxt] is [Fetch] on a selected URL, with the same
    result and the same effect on the world: the primary URL when [full] is
    false, whatever the alternate; the primary URL when [full] is true and
    the alternate is nil; the alternate, whatever string it points to (the
    empty string included), when [full] is true and the alternate is not
    nil. *)
Theorem FetchLLMsTxt_selection
    {World : Type} (Get : resty.Client -> string -> World -> GetResult * World)
    (f : Fetcher) (url : string) (w : World) :
  (forall fullURL : option string,
     FetchLLMsTxt Get f url fullURL false w = Fetch Get f url w) /\
  FetchLLMsTxt Get f url None true w = Fetch Get f url w /\
  (forall alternate : string,
     FetchLLMsTxt Get f url (Some alternate) true w = Fetch Get f alternate w).
Proof.
  unfold FetchLLMsTxt. split; [| split].
  - intros [alternate |]; reflexivity.
  - reflexivity.
  - intros alternate. reflexivity.
Qed.

(** C6, as stated, fails: the error returned for a 429 response with
    [Retry-After: 5] is the [rate_limited] error, and its context has no
    [status] entry. *)
Lemma Fetch_rate_limited_has_no_status :
  let r := (Fetch (examples.answering 429 examples.retryAfter5 "slow down")
              examples.fetcher examples.primaryURL tt).1 in
  oops.code <$> r.2 = Some errs.CodeRateLimited /\
  (fun e => oops.context e !! "status") <$> r.2 = Some None.
Proof. split; vm_compute; reflexivity. Qed.

(** C6, amended.  For a response with status 429 [Fetch] returns the
    [rate_limited] error of the HTTP domain with exactly two context
    entries, the target URL under [url] and the value of the [Retry-After]
    header under [retry_after] (the first value when the header is present,
    the empty string when it is not), the fixed hint, and the fixed message.
    The status code is not attached. *)
Theorem Fetch_rate_limited_error
    {World : Type} (Get : resty.Client -> string -> World -> GetResult * World)
    (f : Fetcher) (url : string) (w w' : World) (resp : resty.Response) :
  Get (client f) url w = ((resp, None), w') ->
  resty.StatusCode resp = 429 ->
  exists e : oops.OopsError,
    (Fetch Get f url w).1 = ("", Some e) /\
    oops.domain e = errs.DomainHTTP /\
    oops.code e = errs.CodeRateLimited /\
    oops.context e =
      <["retry_after" :=
          oops.StringVal (http.Get (resty.Header resp) "Retry-After")]>
        (<["url" := oops.StringVal url]> ∅) /\
    oops.context e !! "url" = Some (oops.StringVal url) /\
    (forall (v : string) (vs : list string),
       resty.Header resp !! "Retry-After" = Some (v :: vs) ->
       oops.context e !! "retry_after" = Some (oops.StringVal v)) /\
    (resty.Header resp !! "Retry-After" = None ->
       oops.context e !! "retry_after" = Some (oops.StringVal "")) /\
    oops.context e !! "status" = None /\
    oops.hint e = "Wait before retrying or use a different source" /\
    oops.Unwrap e = Some (errorString "rate limited by server") /\
    oops.Error e = "rate limited by server".
Proof.
  intros HGet Hc.
  rewrite (Fetch_429 Get f url w w' resp HGet Hc).
  eexists. split; [reflexivity |]. cbn.
  split_and!; try reflexivity.
  - intros v vs Hv. rewrite lookup_insert_eq. unfold http.Get. now rewrite Hv.
  - intros Hv. rewrite lookup_insert_eq. unfold http.Get. now rewrite Hv.
Qed.

Lemma Fetch_rate_limited_error_witness :
  exists e : oops.OopsError,
    (Fetch (examples.answering 429 examples.retryAfter5 "slow down")
       examples.fetcher examples.primaryURL tt).1 = ("", Some e) /\
    oops.context e !! "retry_after" = Some (oops.StringVal "5") /\
    oops.hint e = "Wait before retrying or use a different source".
Proof.
  destruct (Fetch_rate_limited_error
              (examples.answering 429 examples.retryAfter5 "slow down")
              examples.fetcher examples.primaryURL tt tt
              (examples.response examples.primaryURL 429
                 examples.retryAfter5 "slow down")
              eq_refl eq_refl)
    as (e & HF & _ & _ & _ & _ & Hra & _ & _ & Hh & _).
  exists e. split; [exact HF |]. split; [| exact Hh].
  apply (Hra "5" []). vm_compute. reflexivity.
Defined.








(** C8.  [NewClient] is a total function of its argument: it returns a
    client for a nil configuration and for every configuration value.  For a
    nil configuration the client has the default settings: timeout 30 s,
    retry count 3, retry wait time 100 ms, maximum retry wait time 2 s; for
    a given configuration it has that configuration's settings. *)
Theorem NewClient_total_with_defaults :
  (forall cfg : option Config, exists c : resty.Client, NewClient cfg = c) /\
  (resty.Timeout (NewClient None) = 30 * time.Second /\
   resty.RetryCount (NewClient None) = 3 /\
   resty.RetryWaitTime (NewClient None) = 100 * time.Millisecond /\
   resty.RetryMaxWaitTime (NewClient None) = 2 * time.Second /\
   resty.Debug (NewClient None) = false) /\
  (time.Millisecond = 1000000 /\ time.Second = 1000000000) /\
  NewClient None = NewClient (Some DefaultConfig) /\
  (forall cfg : Config,
     resty.Timeout (NewClient (Some cfg)) = Timeout cfg /\
     resty.RetryCount (NewClient (Some cfg)) = RetryCount cfg /\
     resty.RetryWaitTime (NewClient (Some cfg)) = RetryWaitTime cfg /\
     resty.RetryMaxWaitTime (NewClient (Some cfg)) = RetryMaxWaitTime cfg /\
     resty.Debug (NewClient (Some cfg)) = Verbose cfg).
Proof.
  split; [intros cfg; eexists; reflexivity |].
  split; [split_and!; reflexivity |].
  split; [split; reflexivity |].
  split; [reflexivity |].
  intros [t n wt mwt [|]]; split_and!; reflexivity.
Qed.

(** C9.  Whatever the configuration, the client built by [NewClient] has a
    circuit breaker with failure threshold 3, success threshold 1 and reset
    timeout 30 s, whose only failure policy is the library's 5xx policy:
    every response with a status from 500 to 599 is counted as a failure by
    a policy of the breaker. *)
Theorem NewClient_circuit_breaker (cfg : option Config) :
  exists cb : resty.CircuitBreaker,
    resty.circuitBreaker (NewClient cfg) = Some cb /\
    resty.failureThreshold cb = 3 /\
    resty.successThreshold cb = 1 /\
    resty.resetTimeout cb = 30 * time.Second /\
    resty.policies cb = [resty.CircuitBreaker5xxPolicy] /\
    forall resp : resty.Response,
      500 <= resty.StatusCode resp <= 599 ->
      exists p : resty.CircuitBreakerPolicy,
        p ∈ resty.policies cb /\ p resp = true.
Proof.
  eexists. split.
  - unfold NewClient.
    destruct cfg as [[t n wt mwt [|]] |]; cbn; reflexivity.
  - cbn. split_and!; try reflexivity.
    intros resp [Hlo Hhi].
    exists resty.CircuitBreaker5xxPolicy. split.
    + apply list_elem_of_singleton. reflexivity.
    + unfold resty.CircuitBreaker5xxPolicy.
      apply andb_true_intro. split; apply Z.leb_le; assumption.
Qed.

Lemma NewClient_circuit_breaker_witness :
  exists (cb : resty.CircuitBreaker) (p : resty.CircuitBreakerPolicy),
    resty.circuitBreaker (NewClient None) = Some cb /\
    resty.failureThreshold cb = 3 /\
    p ∈ resty.policies cb /\
    p (examples.response examples.primaryURL 503 ∅ "unavailable") = true.
Proof.
  destruct (NewClient_circuit_breaker None)
    as (cb & Hcb & Hf & _ & _ & _ & Hpol).
  destruct (Hpol (examples.response examples.primaryURL 503 ∅ "unavailable"))
    as (p & Hin & Hp); [cbn; lia |].
  exists cb, p. split_and!; assumption.
Defined.

(** ** Properties of [strings] and of [slugify] *)

Section StringFacts.

Import strings.

Lemma toLowerByte_not_upper (c : ascii) : isUpperByte (toLowerByte c) = false.
Proof.
  unfold toLowerByte. destruct (isUpperByte c) eqn:Hup; [| exact Hup].
  unfold isUpperByte in *.
  apply andb_true_iff in Hup as [Hlo Hhi].
  apply N.leb_le in Hlo, Hhi.
  rewrite N_ascii_embedding by lia.
  apply andb_false_iff. right. apply N.leb_gt. lia.
Qed.

Lemma toLowerByte_ascii (c : ascii) :
  (N_of_ascii c <? RuneSelf)%N = true ->
  (N_of_ascii (toLowerByte c) <? RuneSelf)%N = true.
Proof.
  intros Hc. unfold toLowerByte.
  destruct (isUpperByte c) eqn:Hup; [| exact Hc].
  unfold isUpperByte in Hup.
  apply andb_true_iff in Hup as [Hlo Hhi].
  apply N.leb_le in Hlo, Hhi.
  rewrite N_ascii_embedding by lia.
  apply N.ltb_lt. unfold RuneSelf. lia.
Qed.

Lemma toLowerByte_space (c : ascii) :
  Ascii.eqb (toLowerByte c) " " = Ascii.eqb c " ".
Proof.
  unfold toLowerByte. destruct (isUpperByte c) eqn:Hup; [| reflexivity].
  unfold isUpperByte in Hup.
  apply andb_true_iff in Hup as [Hlo Hhi].
  apply N.leb_le in Hlo, Hhi.
  transitivity false.
  - apply Ascii.eqb_neq. intros Heq.
    apply (f_equal N_of_ascii) in Heq.
    rewrite N_ascii_embedding in Heq by lia. cbn in Heq. lia.
  - symmetry. apply Ascii.eqb_neq. intros ->. cbn in Hlo. lia.
Qed.

Lemma lowerASCII_length (s : string) :
  String.length (lowerASCII s) = String.length s.
Proof. induction s as [| c s IH]; cbn; [reflexivity | now rewrite IH]. Qed.

Lemma lowerASCII_isASCII (s : string) :
  isASCII s = true -> isASCII (lowerASCII s) = true.
Proof.
  induction s as [| c s IH]; cbn; [reflexivity |].
  intros [Hc Hs]%andb_true_iff.
  rewrite (toLowerByte_ascii c Hc). cbn. now apply IH.
Qed.

Lemma lowerASCII_hasUpper (s : string) : hasUpper (lowerASCII s) = false.
Proof.
  induction s as [| c s IH]; cbn; [reflexivity |].
  now rewrite toLowerByte_not_upper, IH.
Qed.

Lemma lowerASCII_fixed (s : string) :
  hasUpper s = false -> lowerASCII s = s.
Proof.
  induction s as [| c s IH]; cbn; [reflexivity |].
  intros [Hc Hs]%orb_false_iff.
  unfold toLowerByte. rewrite Hc. now rewrite IH.
Qed.

Lemma append_dash (s : string) : "-" +:+ s = String "-" s.
Proof. reflexivity. Qed.

Lemma ReplaceAll_space_length (s : string) :
  String.length (ReplaceAll s " " "-") = String.length s.
Proof.
  induction s as [| c s IH]; cbn; [reflexivity |].
  destruct (Ascii.eqb c " "); rewrite ?append_dash; cbn; now rewrite IH.
Qed.

Lemma ReplaceAll_space_hasByte (s : string) :
  hasByte " " (ReplaceAll s " " "-") = false.
Proof.
  induction s as [| c s IH]; cbn; [reflexivity |].
  destruct (Ascii.eqb c " ") eqn:Hc; rewrite ?append_dash; cbn; [exact IH |].
  now rewrite Hc, IH.
Qed.

Lemma ReplaceAll_space_isASCII (s : string) :
  isASCII s = true -> isASCII (ReplaceAll s " " "-") = true.
Proof.
  induction s as [| c s IH]; cbn; [reflexivity |].
  intros [Hc Hs]%andb_true_iff.
  destruct (Ascii.eqb c " "); rewrite ?append_dash; cbn; [now apply IH |].
  rewrite Hc. cbn. now apply IH.
Qed.

Lemma ReplaceAll_space_hasUpper (s : string) :
  hasUpper s = false -> hasUpper (ReplaceAll s " " "-") = false.
Proof.
  induction s as [| c s IH]; cbn; [reflexivity |].
  intros [Hc Hs]%orb_false_iff.
  destruct (Ascii.eqb c " "); rewrite ?append_dash; cbn; [now apply IH |].
  rewrite Hc. cbn. now apply IH.
Qed.

Lemma ReplaceAll_fixed (s : string) (old : ascii) (new : string) :
  hasByte old s = false -> ReplaceAll s old new = s.
Proof.
  induction s as [| c s IH]; cbn; [reflexivity |].
  intros [Hc Hs]%orb_false_iff. rewrite Hc. now rewrite IH.
Qed.

Lemma lowerASCII_hasByte_space (s : string) :
  hasByte " " (lowerASCII s) = hasByte " " s.
Proof.
  induction s as [| c s IH]; cbn; [reflexivity |].
  now rewrite toLowerByte_space, IH.
Qed.

End StringFacts.

(** X1.  A slug never contains a space, whatever the name and whatever the
    Unicode lowering does. *)
Theorem slugify_has_no_space (mapUnicodeToLower : string -> string)
    (name : string) :
  strings.hasByte " " (registry.slugify mapUnicodeToLower name) = false.
Proof. unfold registry.slugify. apply ReplaceAll_space_hasByte. Qed.

(** X2.  For an ASCII name the slug is the name with every upper-case letter
    lowered and every space turned into a dash: it is ASCII, has the length
    of the name, no upper-case letter and no space; lowering it or
    slugifying it again changes nothing. *)
Theorem slugify_ascii (mapUnicodeToLower : string -> string) (name : string) :
  strings.isASCII name = true ->
  let slug := registry.slugify mapUnicodeToLower name in
  slug = strings.ReplaceAll (strings.lowerASCII name) " " "-" /\
  strings.isASCII slug = true /\
  String.length slug = String.length name /\
  strings.hasUpper slug = false /\
  strings.hasByte " " slug = false /\
  strings.ToLower mapUnicodeToLower slug = slug /\
  registry.slugify mapUnicodeToLower slug = slug.
Proof.
  intros Hascii slug.
  assert (Hslug :
    slug = strings.ReplaceAll (strings.lowerASCII name) " " "-").
  { subst slug. unfold registry.slugify, strings.ToLower.
    now rewrite Hascii. }
  assert (Hasc : strings.isASCII slug = true).
  { rewrite Hslug.
    apply ReplaceAll_space_isASCII, lowerASCII_isASCII, Hascii. }
  assert (Hup : strings.hasUpper slug = false).
  { rewrite Hslug. apply ReplaceAll_space_hasUpper, lowerASCII_hasUpper. }
  assert (Hsp : strings.hasByte " " slug = false).
  { rewrite Hslug. apply ReplaceAll_space_hasByte. }
  assert (Hlow : strings.ToLower mapUnicodeToLower slug = slug).
  { unfold strings.ToLower. rewrite Hasc. now apply lowerASCII_fixed. }
  split_and!; try assumption.
  - rewrite Hslug, ReplaceAll_space_length. apply lowerASCII_length.
  - unfold registry.slugify. rewrite Hlow. now apply ReplaceAll_fixed.
Qed.

Lemma slugify_ascii_witness :
  registry.slugify (fun s => s) "Next JS docs" = "next-js-docs" /\
  registry.slugify (fun s => s) "next-js-docs" = "next-js-docs".
Proof.
  destruct (slugify_ascii (fun s => s) "Next JS docs" eq_refl)
    as (Hslug & _ & _ & _ & _ & _ & Hidem).
  split; [exact Hslug | exact Hidem].
Defined.

(** ** Byte-wise order of strings *)

Lemma Ascii_compare_Lt_trans (a b c : ascii) :
  Ascii.compare a b = Lt -> Ascii.compare b c = Lt -> Ascii.compare a c = Lt.
Proof.
  unfold Ascii.compare. rewrite !N.compare_lt_iff. lia.
Qed.

Lemma String_compare_refl (s : string) : String.compare s s = Eq.
Proof.
  induction s as [| c s IH]; cbn; [reflexivity |].
  unfold Ascii.compare. now rewrite N.compare_refl.
Qed.

Lemma String_compare_Lt_trans (a b c : string) :
  String.compare a b = Lt -> String.compare b c = Lt ->
  String.compare a c = Lt.
Proof.
  revert b c. induction a as [| x a IH]; intros [| y b] [| z c]; cbn;
    try discriminate; try reflexivity.
  destruct (Ascii.compare x y) eqn:Hxy; try discriminate;
    destruct (Ascii.compare y z) eqn:Hyz; try discriminate; intros Hab Hbc.
  - apply Ascii.compare_eq_iff in Hxy, Hyz. subst.
    assert (Hzz : Ascii.compare z z = Eq).
    { unfold Ascii.compare. apply N.compare_refl. }
    rewrite Hzz. now apply (IH b c).
  - apply Ascii.compare_eq_iff in Hxy. subst. now rewrite Hyz.
  - apply Ascii.compare_eq_iff in Hyz. subst. now rewrite Hxy.
  - now rewrite (Ascii_compare_Lt_trans x y z Hxy Hyz).
Qed.

Lemma String_ltb_irrefl (s : string) : String.ltb s s = false.
Proof. unfold String.ltb. now rewrite String_compare_refl. Qed.

Lemma String_ltb_trans (a b c : string) :
  String.ltb a b = true -> String.ltb b c = true -> String.ltb a c = true.
Proof.
  unfold String.ltb.
  destruct (String.compare a b) eqn:Hab; try discriminate.
  destruct (String.compare b c) eqn:Hbc; try discriminate.
  now rewrite (String_compare_Lt_trans a b c Hab Hbc).
Qed.

Lemma String_ltb_total (a b : string) :
  String.ltb a b = true \/ a = b \/ String.ltb b a = true.
Proof.
  unfold String.ltb.
  pose proof (String.compare_antisym b a) as Hba.
  destruct (String.compare a b) eqn:Hab; rewrite Hba; cbn; auto.
  right; left. now apply String.compare_eq_iff.
Qed.

Lemma String_ltb_asym (a b : string) :
  String.ltb a b = true -> String.ltb b a = false.
Proof.
  unfold String.ltb.
  pose proof (String.compare_antisym b a) as Hba.
  destruct (String.compare a b); rewrite Hba; cbn; congruence.
Qed.

(** ** Sorting by a string key *)

Section SortByKey.

Context {A : Type} (key : A -> string).

Local Instance key_not_gt_total : Total (key_not_gt key).
Proof.
  intros x y. unfold key_not_gt, key_less.
  destruct (String.ltb (key y) (key x)) eqn:Hyx; [| now left].
  right. now apply String_ltb_asym.
Qed.

Local Instance key_not_gt_trans : Transitive (key_not_gt key).
Proof.
  intros x y z. unfold key_not_gt, key_less. intros Hxy Hyz.
  destruct (String.ltb (key z) (key x)) eqn:Hzx; [| reflexivity].
  destruct (String_ltb_total (key x) (key y)) as [Hlt | [Heq | Hgt]].
  - rewrite (String_ltb_trans _ _ _ Hzx Hlt) in Hyz. discriminate.
  - rewrite Heq in Hzx. congruence.
  - congruence.
Qed.

Local Instance key_lt_trans : Transitive (key_lt key).
Proof. intros x y z. unfold key_lt. apply String_ltb_trans. Qed.

Lemma Slice_Permutation (less : A -> A -> bool) (l : list A) :
  sort.Slice less l ≡ₚ l.
Proof. unfold sort.Slice. apply merge_sort_Permutation. Qed.

Lemma StronglySorted_key_lt (l : list A) :
  StronglySorted (key_not_gt key) l -> NoDup (key <$> l) ->
  StronglySorted (key_lt key) l.
Proof.
  induction 1 as [| x l Hl IH Hx]; intros Hnd; [constructor |].
  rewrite fmap_cons in Hnd. apply NoDup_cons in Hnd as [Hnotin Hnd].
  constructor; [now apply IH |].
  rewrite Forall_forall in Hx |- *. intros y Hy.
  specialize (Hx y Hy). unfold key_not_gt, key_less in Hx. unfold key_lt.
  destruct (String_ltb_total (key x) (key y)) as [Hlt | [Heq | Hgt]].
  - exact Hlt.
  - exfalso. apply Hnotin. rewrite Heq. now apply list_elem_of_fmap_2.
  - congruence.
Qed.

Lemma Slice_key_sorted (l : list A) :
  NoDup (key <$> l) -> StronglySorted (key_lt key) (sort.Slice (key_less key) l).
Proof.
  intros Hnd. apply StronglySorted_key_lt.
  - unfold sort.Slice. apply (StronglySorted_merge_sort (key_not_gt key)).
  - now rewrite (Slice_Permutation (key_less key) l).
Qed.

Lemma key_sorted_unique (l1 l2 : list A) :
  StronglySorted (key_lt key) l1 -> StronglySorted (key_lt key) l2 ->
  l1 ≡ₚ l2 -> l1 = l2.
Proof.
  apply StronglySorted_unique_strong.
  intros x y _ _ Hxy Hyx. unfold key_lt in *.
  rewrite (String_ltb_asym _ _ Hxy) in Hyx. discriminate.
Qed.

Lemma key_sorted_filter (P : A -> bool) (l : list A) :
  StronglySorted (key_lt key) l -> StronglySorted (key_lt key) (List.filter P l).
Proof.
  induction 1 as [| x l Hl IH Hx]; cbn; [constructor |].
  destruct (P x); [| exact IH].
  constructor; [exact IH |].
  rewrite Forall_forall in Hx |- *. intros y Hy.
  apply Hx. apply list_elem_of_In in Hy. apply filter_In in Hy as [Hy _].
  now apply list_elem_of_In.
Qed.

End SortByKey.

(** ** Properties of the registry: loading *)

Section RegistryLoading.

Import registry.

Variable mapUnicodeToLower : string -> string.

Lemma loadDirectoryEntries_cons (d : DirectoryEntry.t)
    (dirs : list DirectoryEntry.t) (m : gmap string Entry) :
  loadDirectoryEntries (d :: dirs) m =
  loadDirectoryEntries dirs (loadDirectoryEntries [d] m).
Proof. reflexivity. Qed.

Lemma loadDirectoryEntries_app (l1 l2 : list DirectoryEntry.t)
    (m : gmap string Entry) :
  loadDirectoryEntries (l1 ++ l2) m =
  loadDirectoryEntries l2 (loadDirectoryEntries l1 m).
Proof. unfold loadDirectoryEntries. apply foldl_app. Qed.

Lemma loadWebsiteEntries_cons (e : WebsiteEntry.t)
    (webs : list WebsiteEntry.t) (m : gmap string Entry) :
  loadWebsiteEntries mapUnicodeToLower (e :: webs) m =
  loadWebsiteEntries mapUnicodeToLower webs
    (loadWebsiteEntries mapUnicodeToLower [e] m).
Proof. reflexivity. Qed.

Lemma loadDirectoryEntries_one_keyed (d : DirectoryEntry.t)
    (m : gmap string Entry) :
  keyed m -> keyed (loadDirectoryEntries [d] m).
Proof.
  intros Hm k e. cbn. rewrite lookup_insert.
  case_decide as Hk; [| apply Hm].
  intros [= <-]. exact Hk.
Qed.

Lemma loadDirectoryEntries_keyed (dirs : list DirectoryEntry.t)
    (m : gmap string Entry) :
  keyed m -> keyed (loadDirectoryEntries dirs m).
Proof.
  revert m. induction dirs as [| d dirs IH]; intros m Hm; [exact Hm |].
  rewrite loadDirectoryEntries_cons.
  apply IH, loadDirectoryEntries_one_keyed, Hm.
Qed.

Lemma loadWebsiteEntries_one_keyed (e : WebsiteEntry.t)
    (m : gmap string Entry) :
  keyed m -> keyed (loadWebsiteEntries mapUnicodeToLower [e] m).
Proof.
  intros Hm k e'. cbn.
  destruct (m !! slugify mapUnicodeToLower (WebsiteEntry.Name e))
    as [existing |] eqn:Hex;
    rewrite lookup_insert; (case_decide as Hk; [| apply Hm]);
    intros [= <-]; cbn.
  - rewrite <- Hk. apply (Hm _ _ Hex).
  - exact Hk.
Qed.

Lemma loadWebsiteEntries_keyed (webs : list WebsiteEntry.t)
    (m : gmap string Entry) :
  keyed m -> keyed (loadWebsiteEntries mapUnicodeToLower webs m).
Proof.
  revert m. induction webs as [| e webs IH]; intros m Hm; [exact Hm |].
  rewrite loadWebsiteEntries_cons.
  apply IH, loadWebsiteEntries_one_keyed, Hm.
Qed.

Lemma keyed_empty : keyed ∅.
Proof. intros k e. rewrite lookup_empty. discriminate. Qed.

Lemma same_source_refl (e : Entry) : same_source e e.
Proof. unfold same_source. split_and!; reflexivity. Qed.

Lemma same_source_trans (e1 e2 e3 : Entry) :
  same_source e1 e2 -> same_source e2 e3 -> same_source e1 e3.
Proof.
  unfold same_source.
  intros (H1 & H2 & H3 & H4 & H5) (G1 & G2 & G3 & G4 & G5).
  split_and!; congruence.
Qed.

Lemma loadWebsiteEntries_one_same_source (w : WebsiteEntry.t)
    (m : gmap string Entry) (k : string) (e : Entry) :
  m !! k = Some e ->
  exists e' : Entry,
    loadWebsiteEntries mapUnicodeToLower [w] m !! k = Some e' /\
    same_source e e'.
Proof.
  intros Hk. cbn.
  destruct (decide (slugify mapUnicodeToLower (WebsiteEntry.Name w) = k))
    as [-> | Hne].
  - rewrite Hk. rewrite lookup_insert_eq. eexists. split; [reflexivity |].
    unfold same_source. cbn. split_and!; reflexivity.
  - exists e. split; [| apply same_source_refl].
    destruct (m !! slugify mapUnicodeToLower (WebsiteEntry.Name w));
      now rewrite lookup_insert_ne.
Qed.

Lemma loadWebsiteEntries_one_slug (w : WebsiteEntry.t)
    (m : gmap string Entry) :
  exists e : Entry,
    loadWebsiteEntries mapUnicodeToLower [w] m
      !! slugify mapUnicodeToLower (WebsiteEntry.Name w) = Some e /\
    Description e = WebsiteEntry.Description w /\
    Category e = WebsiteEntry.Category w.
Proof.
  cbn. destruct (m !! slugify mapUnicodeToLower (WebsiteEntry.Name w));
    rewrite lookup_insert_eq; eexists; (split; [reflexivity |]);
    cbn; split; reflexivity.
Qed.

Lemma loadWebsiteEntries_app (l1 l2 : list WebsiteEntry.t)
    (m : gmap string Entry) :
  loadWebsiteEntries mapUnicodeToLower (l1 ++ l2) m =
  loadWebsiteEntries mapUnicodeToLower l2
    (loadWebsiteEntries mapUnicodeToLower l1 m).
Proof. unfold loadWebsiteEntries. apply foldl_app. Qed.

Lemma loadWebsiteEntries_same_source (webs : list WebsiteEntry.t)
    (m : gmap string Entry) (k : string) (e : Entry) :
  m !! k = Some e ->
  exists e' : Entry,
    loadWebsiteEntries mapUnicodeToLower webs m !! k = Some e' /\
    same_source e e'.
Proof.
  revert m e. induction webs as [| w webs IH]; intros m e Hk.
  - exists e. split; [exact Hk | apply same_source_refl].
  - rewrite loadWebsiteEntries_cons.
    destruct (loadWebsiteEntries_one_same_source w m k e Hk)
      as (e1 & Hk1 & Hs1).
    destruct (IH _ e1 Hk1) as (e2 & Hk2 & Hs2).
    exists e2. split; [exact Hk2 |].
    now apply (same_source_trans e e1 e2).
Qed.

Lemma loadWebsiteEntries_one_other (w : WebsiteEntry.t)
    (m : gmap string Entry) (k : string) :
  slugify mapUnicodeToLower (WebsiteEntry.Name w) <> k ->
  loadWebsiteEntries mapUnicodeToLower [w] m !! k = m !! k.
Proof.
  intros Hne. cbn.
  destruct (m !! slugify mapUnicodeToLower (WebsiteEntry.Name w));
    now rewrite lookup_insert_ne.
Qed.

Lemma loadWebsiteEntries_one_fresh (w : WebsiteEntry.t)
    (m : gmap string Entry) :
  m !! slugify mapUnicodeToLower (WebsiteEntry.Name w) = None ->
  loadWebsiteEntries mapUnicodeToLower [w] m
    !! slugify mapUnicodeToLower (WebsiteEntry.Name w) =
  Some {| Key := slugify mapUnicodeToLower (WebsiteEntry.Name w);
          Name := WebsiteEntry.Name w;
          Domain := WebsiteEntry.Domain w;
          Description := WebsiteEntry.Description w;
          Category := WebsiteEntry.Category w;
          LLMsURL := WebsiteEntry.LLMsTxtURL w;
          LLMsFullURL := WebsiteEntry.LLMsFullTxtURL w |}.
Proof. intros Hnone. cbn. rewrite Hnone. apply lookup_insert_eq. Qed.

End RegistryLoading.

(** X3.  After loading, every entry of the registry is stored under its own
    key, whatever the two decoded documents hold. *)
Theorem init_keyed (mapUnicodeToLower : string -> string)
    (dirEntries : list registry.DirectoryEntry.t)
    (webEntries : list registry.WebsiteEntry.t) :
  forall (k : string) (e : registry.Entry),
    registry.init mapUnicodeToLower dirEntries webEntries !! k = Some e ->
    registry.Key e = k.
Proof.
  apply loadWebsiteEntries_keyed, loadDirectoryEntries_keyed, keyed_empty.
Qed.

Lemma init_keyed_witness :
  registry_examples.entries !! "next-js"
    = Some
        {| registry.Key := "next-js";
           registry.Name := "Next JS";
           registry.Domain := "nextjs.example";
           registry.Description := "React framework";
           registry.Category := "tools";
           registry.LLMsURL := "https://nextjs.example/llms.txt";
           registry.LLMsFullURL :=
             Some "https://nextjs.example/llms-full.txt" |} /\
  "next-js" = "next-js".
Proof.
  split; [reflexivity |].
  exact (init_keyed registry_examples.noUnicode
           registry_examples.dirEntries registry_examples.webEntries
           "next-js" _ eq_refl).
Defined.

(** X4.  Loading website entries never removes a key and never changes the
    key, name, domain or URLs of an entry that is already stored: a website
    whose slug is taken only replaces the description and the category. *)
Theorem loadWebsiteEntries_keeps_source
    (mapUnicodeToLower : string -> string)
    (webEntries : list registry.WebsiteEntry.t)
    (entries : gmap string registry.Entry) (k : string) (e : registry.Entry) :
  entries !! k = Some e ->
  exists e' : registry.Entry,
    registry.loadWebsiteEntries mapUnicodeToLower webEntries entries !! k
      = Some e' /\
    registry.Key e' = registry.Key e /\
    registry.Name e' = registry.Name e /\
    registry.Domain e' = registry.Domain e /\
    registry.LLMsURL e' = registry.LLMsURL e /\
    registry.LLMsFullURL e' = registry.LLMsFullURL e.
Proof.
  intros Hk.
  destruct (loadWebsiteEntries_same_source mapUnicodeToLower
              webEntries entries k e Hk) as (e' & Hk' & Hs).
  exists e'. split; [exact Hk' | exact Hs].
Qed.

Lemma loadWebsiteEntries_keeps_source_witness :
  exists e' : registry.Entry,
    registry_examples.entries !! "vite" = Some e' /\
    registry.LLMsURL e' = "https://vite.dev/llms.txt" /\
    registry.LLMsFullURL e' = Some "https://vite.dev/llms-full.txt".
Proof.
  assert (Hdir :
    registry.loadDirectoryEntries registry_examples.dirEntries
      (∅ : gmap string registry.Entry) !! "vite" =
    Some {| registry.Key := "vite";
            registry.Name := "Vite";
            registry.Domain := "vite.dev";
            registry.Description := "";
            registry.Category := "";
            registry.LLMsURL := "https://vite.dev/llms.txt";
            registry.LLMsFullURL :=
              Some "https://vite.dev/llms-full.txt" |})
    by reflexivity.
  destruct (loadWebsiteEntries_keeps_source registry_examples.noUnicode
              registry_examples.webEntries _ "vite" _ Hdir)
    as (e' & He' & _ & _ & _ & Hurl & Hfull).
  exists e'. split; [exact He' |]. split; [exact Hurl | exact Hfull].
Defined.

(** X5.  After [loadWebsiteEntries] the description and category stored under
    a slug are those of the last website with that slug; a key that is no
    website's slug keeps its entry unchanged. *)
Theorem loadWebsiteEntries_description_last_wins
    (mapUnicodeToLower : string -> string)
    (webEntries : list registry.WebsiteEntry.t)
    (entries : gmap string registry.Entry) (k : string) :
  match
    last (filter
            (fun w =>
               registry.slugify mapUnicodeToLower (registry.WebsiteEntry.Name w)
               = k)
            webEntries)
  with
  | Some w =>
      exists e : registry.Entry,
        registry.loadWebsiteEntries mapUnicodeToLower webEntries entries !! k
          = Some e /\
        registry.Description e = registry.WebsiteEntry.Description w /\
        registry.Category e = registry.WebsiteEntry.Category w
  | None =>
      registry.loadWebsiteEntries mapUnicodeToLower webEntries entries !! k
      = entries !! k
  end.
Proof.
  induction webEntries as [| w webs IH] using rev_ind; [reflexivity |].
  rewrite loadWebsiteEntries_app, filter_app, filter_cons, filter_nil.
  case_decide as Hk.
  - rewrite last_snoc. rewrite <- Hk. apply loadWebsiteEntries_one_slug.
  - rewrite app_nil_r, (loadWebsiteEntries_one_other _ _ _ _ Hk). exact IH.
Qed.

(** X6.  When a key is not in the map yet, the entry stored under it after
    [loadWebsiteEntries] takes its name, domain and URLs from the first
    website whose slug is that key; later websites with the same slug do
    not change them.  A key that is no website's slug stays absent. *)
Theorem loadWebsiteEntries_first_wins
    (mapUnicodeToLower : string -> string)
    (webEntries : list registry.WebsiteEntry.t)
    (entries : gmap string registry.Entry) (k : string) :
  entries !! k = None ->
  match
    head (filter
            (fun w =>
               registry.slugify mapUnicodeToLower (registry.WebsiteEntry.Name w)
               = k)
            webEntries)
  with
  | Some w =>
      exists e : registry.Entry,
        registry.loadWebsiteEntries mapUnicodeToLower webEntries entries !! k
          = Some e /\
        registry.Key e = k /\
        registry.Name e = registry.WebsiteEntry.Name w /\
        registry.Domain e = registry.WebsiteEntry.Domain w /\
        registry.LLMsURL e = registry.WebsiteEntry.LLMsTxtURL w /\
        registry.LLMsFullURL e = registry.WebsiteEntry.LLMsFullTxtURL w
  | None =>
      registry.loadWebsiteEntries mapUnicodeToLower webEntries entries !! k
      = None
  end.
Proof.
  revert entries. induction webEntries as [| w webs IH]; intros m Hnone.
  - exact Hnone.
  - rewrite loadWebsiteEntries_cons, filter_cons. case_decide as Hk.
    + cbn [head]. subst k.
      pose proof (loadWebsiteEntries_one_fresh mapUnicodeToLower w m Hnone)
        as Hfresh.
      destruct (loadWebsiteEntries_same_source mapUnicodeToLower webs
                  _ _ _ Hfresh) as (e & He & Hs).
      exists e. split; [exact He |].
      destruct Hs as (H1 & H2 & H3 & H4 & H5). cbn in H1, H2, H3, H4, H5.
      split_and!; assumption.
    + apply IH.
      now rewrite (loadWebsiteEntries_one_other _ _ _ _ Hk).
Qed.

Lemma loadWebsiteEntries_first_wins_witness :
  exists e : registry.Entry,
    registry_examples.entries !! "next-js" = Some e /\
    registry.Key e = "next-js" /\
    registry.Name e = "Next JS" /\
    registry.Domain e = "nextjs.example" /\
    registry.LLMsURL e = "https://nextjs.example/llms.txt" /\
    registry.LLMsFullURL e = Some "https://nextjs.example/llms-full.txt".
Proof.
  assert (Hnone :
    registry.loadDirectoryEntries registry_examples.dirEntries
      (∅ : gmap string registry.Entry) !! "next-js" = None)
    by reflexivity.
  exact (loadWebsiteEntries_first_wins registry_examples.noUnicode
           registry_examples.webEntries _ "next-js" Hnone).
Defined.

Section RegistryDomain.

Import registry.

Variable mapUnicodeToLower : string -> string.

Lemma loadDirectoryEntries_is_Some (dirs : list DirectoryEntry.t)
    (m : gmap string Entry) (k : string) :
  is_Some (loadDirectoryEntries dirs m !! k) <->
  is_Some (m !! k) \/ exists d, d ∈ dirs /\ DirectoryEntry.Key d = k.
Proof.
  revert m. induction dirs as [| d dirs IH]; intros m.
  - cbn. split; [auto |]. intros [H | (d & Hd & _)]; [exact H |].
    now apply elem_of_nil in Hd.
  - rewrite loadDirectoryEntries_cons, IH. cbn.
    rewrite lookup_insert. case_decide as Hk.
    + split; intros _; [| left; eauto].
      right. exists d. split; [left | exact Hk].
    + split.
      * intros [H | (d' & Hd' & Hk')]; [now left |].
        right. exists d'. split; [now right | exact Hk'].
      * intros [H | (d' & Hd' & Hk')]; [now left |].
        apply elem_of_cons in Hd' as [-> | Hd']; [contradiction |].
        right. eauto.
Qed.

Lemma loadWebsiteEntries_one_is_Some (w : WebsiteEntry.t)
    (m : gmap string Entry) (k : string) :
  is_Some (loadWebsiteEntries mapUnicodeToLower [w] m !! k) <->
  is_Some (m !! k) \/ slugify mapUnicodeToLower (WebsiteEntry.Name w) = k.
Proof.
  cbn.
  destruct (m !! slugify mapUnicodeToLower (WebsiteEntry.Name w))
    as [existing |] eqn:Hex; rewrite lookup_insert; case_decide as Hk.
  - split; intros _; [now right | eauto].
  - split; [now left | intros [H | H]; [exact H | contradiction]].
  - split; intros _; [now right | eauto].
  - split; [now left | intros [H | H]; [exact H | contradiction]].
Qed.

Lemma loadWebsiteEntries_is_Some (webs : list WebsiteEntry.t)
    (m : gmap string Entry) (k : string) :
  is_Some (loadWebsiteEntries mapUnicodeToLower webs m !! k) <->
  is_Some (m !! k) \/
  exists w, w ∈ webs /\ slugify mapUnicodeToLower (WebsiteEntry.Name w) = k.
Proof.
  revert m. induction webs as [| w webs IH]; intros m.
  - cbn. split; [auto |]. intros [H | (w & Hw & _)]; [exact H |].
    now apply elem_of_nil in Hw.
  - rewrite loadWebsiteEntries_cons, IH, loadWebsiteEntries_one_is_Some.
    split.
    + intros [[H | H] | (w' & Hw' & Hk')].
      * now left.
      * right. exists w. split; [left | exact H].
      * right. exists w'. split; [now right | exact Hk'].
    + intros [H | (w' & Hw' & Hk')]; [now left; left |].
      apply elem_of_cons in Hw' as [-> | Hw']; [left; now right |].
      right. eauto.
Qed.

Lemma loadDirectoryEntries_size (dirs : list DirectoryEntry.t)
    (m : gmap string Entry) :
  (size (loadDirectoryEntries dirs m) <= size m + length dirs)%nat.
Proof.
  revert m. induction dirs as [| d dirs IH]; intros m; cbn; [lia |].
  change (foldl _ _ dirs) with
    (loadDirectoryEntries dirs (loadDirectoryEntries [d] m)).
  specialize (IH (loadDirectoryEntries [d] m)).
  assert (size (loadDirectoryEntries [d] m) <= S (size m))%nat; [| lia].
  cbn. rewrite map_size_insert. destruct (m !! _); unfold id; lia.
Qed.

Lemma loadWebsiteEntries_size (webs : list WebsiteEntry.t)
    (m : gmap string Entry) :
  (size (loadWebsiteEntries mapUnicodeToLower webs m)
   <= size m + length webs)%nat.
Proof.
  revert m. induction webs as [| w webs IH]; intros m; [cbn; lia |].
  rewrite loadWebsiteEntries_cons.
  specialize (IH (loadWebsiteEntries mapUnicodeToLower [w] m)).
  assert (size (loadWebsiteEntries mapUnicodeToLower [w] m)
          <= S (size m))%nat; [| cbn [length]; lia].
  cbn.
  destruct (m !! slugify mapUnicodeToLower (WebsiteEntry.Name w)) eqn:Hex;
    rewrite map_size_insert, Hex; unfold id; lia.
Qed.

End RegistryDomain.

(** X7.  The keys of the loaded registry are exactly the keys of the
    directory entries, as written in the document, and the slugs of the
    website names. *)
Theorem init_keys (mapUnicodeToLower : string -> string)
    (dirEntries : list registry.DirectoryEntry.t)
    (webEntries : list registry.WebsiteEntry.t) (k : string) :
  is_Some (registry.init mapUnicodeToLower dirEntries webEntries !! k) <->
  (exists d, d ∈ dirEntries /\ registry.DirectoryEntry.Key d = k) \/
  (exists w, w ∈ webEntries /\
     registry.slugify mapUnicodeToLower (registry.WebsiteEntry.Name w) = k).
Proof.
  unfold registry.init.
  rewrite loadWebsiteEntries_is_Some, loadDirectoryEntries_is_Some.
  rewrite lookup_empty. split.
  - intros [[[? H] | H] | H]; [discriminate | now left | now right].
  - intros [H | H]; [left; now right | now right].
Qed.

(** X8.  The registry holds at most one entry per decoded directory entry
    and website entry. *)
Theorem Count_init_bound (mapUnicodeToLower : string -> string)
    (dirEntries : list registry.DirectoryEntry.t)
    (webEntries : list registry.WebsiteEntry.t) :
  registry.Count (registry.init mapUnicodeToLower dirEntries webEntries)
  <= Z.of_nat (length dirEntries) + Z.of_nat (length webEntries).
Proof.
  unfold registry.Count, registry.init.
  pose proof (loadWebsiteEntries_size mapUnicodeToLower webEntries
                (registry.loadDirectoryEntries dirEntries ∅)) as Hw.
  pose proof (loadDirectoryEntries_size dirEntries ∅) as Hd.
  rewrite map_size_empty in Hd. lia.
Qed.

(** X9.  Among directory entries with the same key the last one wins as a
    whole: the entry stored under a key after [loadDirectoryEntries] is
    built from the last directory entry with that key, with an empty
    description and category; a key no directory entry has keeps what the
    map held. *)
Theorem loadDirectoryEntries_last_wins
    (dirEntries : list registry.DirectoryEntry.t)
    (entries : gmap string registry.Entry) (k : string) :
  registry.loadDirectoryEntries dirEntries entries !! k =
  match
    last (filter (fun d => registry.DirectoryEntry.Key d = k) dirEntries)
  with
  | Some d =>
      Some {| registry.Key := k;
              registry.Name := registry.DirectoryEntry.Name d;
              registry.Domain := registry.DirectoryEntry.Domain d;
              registry.Description := "";
              registry.Category := "";
              registry.LLMsURL := registry.DirectoryEntry.LLMsURL d;
              registry.LLMsFullURL := registry.DirectoryEntry.LLMsFullURL d |}
  | None => entries !! k
  end.
Proof.
  induction dirEntries as [| d dirs IH] using rev_ind; [reflexivity |].
  rewrite loadDirectoryEntries_app, filter_app. cbn [registry.loadDirectoryEntries foldl].
  rewrite lookup_insert.
  rewrite filter_cons, filter_nil.
  case_decide as Hk.
  - rewrite last_snoc. now rewrite Hk.
  - rewrite app_nil_r. exact IH.
Qed.

(** ** Properties of the registry: lookup *)

Section RegistryLookup.

Import registry.

Variable mapUnicodeToLower : string -> string.
Variable quote : string -> string.

Lemma Lookup_Some (entries : gmap string Entry) (key : string) (e : Entry) :
  (Lookup mapUnicodeToLower quote entries key).1 = Some e <->
  entries !! strings.ToLower mapUnicodeToLower key = Some e.
Proof.
  unfold Lookup.
  destruct (entries !! strings.ToLower mapUnicodeToLower key); cbn;
    split; congruence.
Qed.

Lemma ToLower_ascii (s : string) :
  strings.isASCII s = true ->
  strings.ToLower mapUnicodeToLower s = strings.lowerASCII s.
Proof. intros Hs. unfold strings.ToLower. now rewrite Hs. Qed.

Lemma registry_init_keyed (dirs : list DirectoryEntry.t)
    (webs : list WebsiteEntry.t) :
  keyed (init mapUnicodeToLower dirs webs).
Proof.
  apply loadWebsiteEntries_keyed, loadDirectoryEntries_keyed, keyed_empty.
Qed.

Lemma registry_init_is_Some (dirs : list DirectoryEntry.t)
    (webs : list WebsiteEntry.t) (k : string) :
  is_Some (init mapUnicodeToLower dirs webs !! k) <->
  (exists d, d ∈ dirs /\ DirectoryEntry.Key d = k) \/
  (exists w, w ∈ webs /\
     slugify mapUnicodeToLower (WebsiteEntry.Name w) = k).
Proof.
  unfold init.
  rewrite loadWebsiteEntries_is_Some, loadDirectoryEntries_is_Some.
  rewrite lookup_empty. split.
  - intros [[[? H] | H] | H]; [discriminate | now left | now right].
  - intros [H | H]; [left; now right | now right].
Qed.

End RegistryLookup.

(** X11.  For ASCII keys the lookup ignores the case of the query: two keys
    that differ only in the case of their letters get the same entry, or
    both get none. *)
Theorem Lookup_ascii_case_insensitive
    (mapUnicodeToLower quote : string -> string)
    (entries : gmap string registry.Entry) (key1 key2 : string) :
  strings.isASCII key1 = true ->
  strings.isASCII key2 = true ->
  strings.lowerASCII key1 = strings.lowerASCII key2 ->
  (registry.Lookup mapUnicodeToLower quote entries key1).1 =
  (registry.Lookup mapUnicodeToLower quote entries key2).1.
Proof.
  intros H1 H2 Heq. unfold registry.Lookup.
  rewrite (ToLower_ascii mapUnicodeToLower key1 H1).
  rewrite (ToLower_ascii mapUnicodeToLower key2 H2).
  rewrite Heq.
  destruct (entries !! strings.lowerASCII key2); reflexivity.
Qed.

Lemma Lookup_ascii_case_insensitive_witness :
  (registry.Lookup registry_examples.noUnicode registry_examples.quoted
     registry_examples.entries "VITE").1 =
  (registry.Lookup registry_examples.noUnicode registry_examples.quoted
     registry_examples.entries "Vite").1.
Proof.
  apply (Lookup_ascii_case_insensitive
           registry_examples.noUnicode registry_examples.quoted
           registry_examples.entries "VITE" "Vite");
    reflexivity.
Defined.

(** X12.  The entry [Lookup] returns from the loaded registry has the
    lower-cased query as its key.  For an ASCII query that key has no
    upper-case letter: an entry stored under a key with an upper-case ASCII
    letter is never returned, not even for its own key. *)
Theorem Lookup_returns_lower_case_key
    (mapUnicodeToLower quote : string -> string)
    (dirEntries : list registry.DirectoryEntry.t)
    (webEntries : list registry.WebsiteEntry.t)
    (key : string) (e : registry.Entry) :
  (registry.Lookup mapUnicodeToLower quote
     (registry.init mapUnicodeToLower dirEntries webEntries) key).1 = Some e ->
  registry.Key e = strings.ToLower mapUnicodeToLower key /\
  (strings.isASCII key = true -> strings.hasUpper (registry.Key e) = false).
Proof.
  intros Hfound. apply Lookup_Some in Hfound.
  apply registry_init_keyed in Hfound.
  split; [exact Hfound |].
  intros Hascii. rewrite Hfound, (ToLower_ascii _ _ Hascii).
  apply lowerASCII_hasUpper.
Qed.

Lemma Lookup_returns_lower_case_key_witness :
  exists e : registry.Entry,
    (registry.Lookup registry_examples.noUnicode registry_examples.quoted
       registry_examples.entries "VITE").1 = Some e /\
    registry.Key e = "vite" /\
    strings.hasUpper (registry.Key e) = false.
Proof.
  eexists. split; [reflexivity |].
  destruct (Lookup_returns_lower_case_key
              registry_examples.noUnicode registry_examples.quoted
              registry_examples.dirEntries registry_examples.webEntries
              "VITE" _ eq_refl) as [Hkey Hup].
  split; [exact Hkey | exact (Hup eq_refl)].
Defined.

(** X13.  Every website entry with an ASCII name can be looked up by the slug
    of its name: the lookup returns an entry whose key is that slug. *)
Theorem Lookup_finds_website_by_slug
    (mapUnicodeToLower quote : string -> string)
    (dirEntries : list registry.DirectoryEntry.t)
    (webEntries : list registry.WebsiteEntry.t)
    (w : registry.WebsiteEntry.t) :
  w ∈ webEntries ->
  strings.isASCII (registry.WebsiteEntry.Name w) = true ->
  exists e : registry.Entry,
    registry.Lookup mapUnicodeToLower quote
      (registry.init mapUnicodeToLower dirEntries webEntries)
      (registry.slugify mapUnicodeToLower (registry.WebsiteEntry.Name w))
    = (Some e, None) /\
    registry.Key e =
      registry.slugify mapUnicodeToLower (registry.WebsiteEntry.Name w).
Proof.
  intros Hw Hascii.
  set (slug := registry.slugify mapUnicodeToLower (registry.WebsiteEntry.Name w)).
  assert (Hslug : strings.ToLower mapUnicodeToLower slug = slug).
  { assert (Hs : slug = strings.ReplaceAll
                          (strings.lowerASCII (registry.WebsiteEntry.Name w))
                          " " "-").
    { subst slug. unfold registry.slugify.
      now rewrite (ToLower_ascii _ _ Hascii). }
    rewrite ToLower_ascii.
    - apply lowerASCII_fixed. rewrite Hs.
      apply ReplaceAll_space_hasUpper, lowerASCII_hasUpper.
    - rewrite Hs.
      apply ReplaceAll_space_isASCII, lowerASCII_isASCII, Hascii. }
  destruct (proj2 (registry_init_is_Some mapUnicodeToLower
                     dirEntries webEntries slug)) as [e He].
  { right. exists w. split; [exact Hw | reflexivity]. }
  exists e. split.
  - unfold registry.Lookup. now rewrite Hslug, He.
  - apply (registry_init_keyed mapUnicodeToLower dirEntries webEntries).
    exact He.
Qed.

Lemma Lookup_finds_website_by_slug_witness :
  exists e : registry.Entry,
    registry.Lookup registry_examples.noUnicode registry_examples.quoted
      registry_examples.entries "next-js" = (Some e, None) /\
    registry.Key e = "next-js".
Proof.
  apply (Lookup_finds_website_by_slug
           registry_examples.noUnicode registry_examples.quoted
           registry_examples.dirEntries registry_examples.webEntries
           registry_examples.webNext).
  - unfold registry_examples.webEntries. apply list_elem_of_In. cbn. auto.
  - reflexivity.
Defined.

(** X14.  When no directory key contains a space, looking up an ASCII name
    that contains a space finds nothing: a website whose name has a space
    is stored under its slug and cannot be found by its name. *)
Theorem Lookup_misses_name_with_space
    (mapUnicodeToLower quote : string -> string)
    (dirEntries : list registry.DirectoryEntry.t)
    (webEntries : list registry.WebsiteEntry.t) (name : string) :
  (forall d, d ∈ dirEntries ->
     strings.hasByte " " (registry.DirectoryEntry.Key d) = false) ->
  strings.isASCII name = true ->
  strings.hasByte " " name = true ->
  exists err : oops.OopsError,
    registry.Lookup mapUnicodeToLower quote
      (registry.init mapUnicodeToLower dirEntries webEntries) name
    = (None, Some err) /\
    oops.code err = errs.CodeNotFound.
Proof.
  intros Hdirs Hascii Hspace.
  assert (Hnone :
    registry.init mapUnicodeToLower dirEntries webEntries
      !! strings.ToLower mapUnicodeToLower name = None).
  { apply eq_None_not_Some. intros Hsome.
    apply registry_init_is_Some in Hsome.
    rewrite (ToLower_ascii _ _ Hascii) in Hsome.
    assert (Hlow : strings.hasByte " " (strings.lowerASCII name) = true).
    { now rewrite lowerASCII_hasByte_space. }
    destruct Hsome as [(d & Hd & Hk) | (w & Hw & Hk)].
    - specialize (Hdirs d Hd). rewrite Hk in Hdirs. congruence.
    - rewrite <- Hk in Hlow. unfold registry.slugify in Hlow.
      rewrite ReplaceAll_space_hasByte in Hlow. discriminate. }
  unfold registry.Lookup. rewrite Hnone.
  eexists. split; reflexivity.
Qed.

Lemma Lookup_misses_name_with_space_witness :
  exists err : oops.OopsError,
    registry.Lookup registry_examples.noUnicode registry_examples.quoted
      registry_examples.entries "Next JS" = (None, Some err) /\
    oops.code err = errs.CodeNotFound.
Proof.
  apply (Lookup_misses_name_with_space
           registry_examples.noUnicode registry_examples.quoted
           registry_examples.dirEntries registry_examples.webEntries
           "Next JS").
  - intros d Hd. apply list_elem_of_In in Hd. cbn in Hd.
    destruct Hd as [<- | [<- | []]]; reflexivity.
  - reflexivity.
  - reflexivity.
Defined.

(** ** Properties of the registry: listings *)

Section RegistryListing.

Import registry.

Lemma keyed_values_keys (entries : gmap string Entry) :
  keyed entries ->
  Key <$> (map_to_list entries).*2 = (map_to_list entries).*1.
Proof.
  intros Hkeyed.
  assert (Hall : forall k e, (k, e) ∈ map_to_list entries -> Key e = k).
  { intros k e Hin. apply elem_of_map_to_list in Hin. now apply Hkeyed. }
  induction (map_to_list entries) as [| [k e] l IH]; [reflexivity |].
  cbn. f_equal.
  - apply Hall. left.
  - apply IH. intros k' e' Hin. apply Hall. now right.
Qed.

Lemma keyed_values_NoDup (entries : gmap string Entry) :
  keyed entries -> NoDup (Key <$> (map_to_list entries).*2).
Proof.
  intros Hkeyed. rewrite (keyed_values_keys entries Hkeyed).
  apply NoDup_fst_map_to_list.
Qed.

Lemma NoDup_fmap_filter {A B : Type} (f : A -> B) (P : A -> bool)
    (l : list A) :
  NoDup (f <$> l) -> NoDup (f <$> List.filter P l).
Proof.
  induction l as [| x l IH]; cbn; [intros; constructor |].
  intros [Hnotin Hnd]%NoDup_cons.
  destruct (P x); [| now apply IH].
  cbn. apply NoDup_cons. split; [| now apply IH].
  intros Hin. apply Hnotin.
  apply list_elem_of_fmap in Hin as (y & -> & Hy).
  apply list_elem_of_fmap_2.
  apply list_elem_of_In in Hy. apply filter_In in Hy as [Hy _].
  now apply list_elem_of_In.
Qed.

Lemma filter_Permutation {A : Type} (P : A -> bool) (l1 l2 : list A) :
  l1 ≡ₚ l2 -> List.filter P l1 ≡ₚ List.filter P l2.
Proof.
  induction 1 as [| x l1 l2 _ IH | x y l | l1 l2 l3 _ IH1 _ IH2]; cbn.
  - reflexivity.
  - destruct (P x); [now constructor | exact IH].
  - destruct (P x), (P y); try reflexivity. apply perm_swap.
  - now rewrite IH1.
Qed.

End RegistryListing.

(** X15.  When every entry is stored under its own key (as after loading),
    [List] returns each entry of the registry exactly once, in strictly
    increasing order of the keys compared byte by byte; an entry is listed
    exactly when it is stored. *)
Theorem List_sorted (entries : gmap string registry.Entry) :
  registry.keyed entries ->
  registry.List entries ≡ₚ (map_to_list entries).*2 /\
  StronglySorted (key_lt registry.Key) (registry.List entries) /\
  NoDup (registry.Key <$> registry.List entries) /\
  Z.of_nat (length (registry.List entries)) = registry.Count entries /\
  (forall e : registry.Entry,
     e ∈ registry.List entries <-> entries !! registry.Key e = Some e).
Proof.
  intros Hkeyed.
  assert (Hperm : registry.List entries ≡ₚ (map_to_list entries).*2).
  { apply Slice_Permutation. }
  split_and!.
  - exact Hperm.
  - apply (Slice_key_sorted registry.Key), keyed_values_NoDup, Hkeyed.
  - rewrite Hperm. apply keyed_values_NoDup, Hkeyed.
  - rewrite Hperm. unfold registry.Count.
    now rewrite length_fmap, length_map_to_list.
  - intros e. rewrite Hperm. split.
    + intros Hin. apply list_elem_of_fmap in Hin as ([k e'] & -> & Hin).
      apply elem_of_map_to_list in Hin. cbn.
      now rewrite (Hkeyed _ _ Hin).
    + intros Hin. apply elem_of_map_to_list in Hin.
      apply list_elem_of_fmap. now exists (registry.Key e, e).
Qed.

Lemma List_sorted_witness :
  registry.Key <$> registry.List registry_examples.entries
    = ["Bun"; "next-js"; "vite"] /\
  StronglySorted (key_lt registry.Key)
    (registry.List registry_examples.entries).
Proof.
  split; [reflexivity |].
  apply (List_sorted registry_examples.entries).
  apply (loadWebsiteEntries_keyed registry_examples.noUnicode),
    loadDirectoryEntries_keyed, keyed_empty.
Defined.

(** X16.  [Keys] returns every key of the registry exactly once, in strictly
    increasing byte order; when every entry is stored under its own key it
    is the list of the keys of [List], in the same order. *)
Theorem Keys_sorted (entries : gmap string registry.Entry) :
  StronglySorted (fun a b => String.ltb a b = true) (registry.Keys entries) /\
  NoDup (registry.Keys entries) /\
  (forall k : string, k ∈ registry.Keys entries <-> is_Some (entries !! k)) /\
  Z.of_nat (length (registry.Keys entries)) = registry.Count entries /\
  (registry.keyed entries ->
   registry.Keys entries = registry.Key <$> registry.List entries).
Proof.
  assert (Hperm : registry.Keys entries ≡ₚ (map_to_list entries).*1).
  { apply Slice_Permutation. }
  assert (Hnd : NoDup ((map_to_list entries).*1))
    by apply NoDup_fst_map_to_list.
  assert (Hsorted :
    StronglySorted (key_lt (fun k : string => k)) (registry.Keys entries)).
  { apply (Slice_key_sorted (fun k : string => k)).
    now rewrite list_fmap_id. }
  split_and!.
  - exact Hsorted.
  - now rewrite Hperm.
  - intros k. rewrite Hperm. split.
    + intros Hin. apply list_elem_of_fmap in Hin as ([k' e] & -> & Hin).
      apply elem_of_map_to_list in Hin. eauto.
    + intros [e He]. apply list_elem_of_fmap. exists (k, e).
      split; [reflexivity |]. now apply elem_of_map_to_list.
  - rewrite Hperm. unfold registry.Count.
    now rewrite length_fmap, length_map_to_list.
  - intros Hkeyed.
    apply (key_sorted_unique (fun k : string => k)); [exact Hsorted | |].
    + apply (StronglySorted_fmap registry.Key (key_lt registry.Key)
               (key_lt (fun k : string => k))).
      * intros a b Hab. exact Hab.
      * apply (Slice_key_sorted registry.Key), keyed_values_NoDup, Hkeyed.
    + rewrite Hperm.
      rewrite <- (keyed_values_keys entries Hkeyed).
      apply fmap_Permutation. symmetry. apply Slice_Permutation.
Qed.

Lemma Keys_sorted_witness :
  registry.Keys registry_examples.entries = ["Bun"; "next-js"; "vite"] /\
  registry.Keys registry_examples.entries
    = registry.Key <$> registry.List registry_examples.entries.
Proof.
  split; [reflexivity |].
  apply (Keys_sorted registry_examples.entries).
  apply (loadWebsiteEntries_keyed registry_examples.noUnicode),
    loadDirectoryEntries_keyed, keyed_empty.
Defined.

(** X17.  When every entry is stored under its own key, [ListByCategory] is
    [List] restricted to the entries whose category equals the requested
    one after both are lower-cased, in the same order.  In particular the
    empty category selects the entries that never got a category. *)
Theorem ListByCategory_filters_List (mapUnicodeToLower : string -> string)
    (entries : gmap string registry.Entry) (category : string) :
  registry.keyed entries ->
  registry.ListByCategory mapUnicodeToLower entries category =
  List.filter
    (fun e =>
       String.eqb
         (strings.ToLower mapUnicodeToLower (registry.Category e))
         (strings.ToLower mapUnicodeToLower category))
    (registry.List entries).
Proof.
  intros Hkeyed.
  apply (key_sorted_unique registry.Key).
  - apply (Slice_key_sorted registry.Key).
    apply NoDup_fmap_filter, keyed_values_NoDup, Hkeyed.
  - apply key_sorted_filter.
    apply (Slice_key_sorted registry.Key), keyed_values_NoDup, Hkeyed.
  - unfold registry.ListByCategory. rewrite Slice_Permutation.
    apply filter_Permutation. symmetry. apply Slice_Permutation.
Qed.

Lemma ListByCategory_filters_List_witness :
  registry.Key <$>
    registry.ListByCategory registry_examples.noUnicode
      registry_examples.entries "TOOLS" = ["next-js"; "vite"] /\
  registry.ListByCategory registry_examples.noUnicode
    registry_examples.entries "TOOLS" =
  List.filter
    (fun e =>
       String.eqb
         (strings.ToLower registry_examples.noUnicode (registry.Category e))
         (strings.ToLower registry_examples.noUnicode "TOOLS"))
    (registry.List registry_examples.entries).
Proof.
  split; [reflexivity |].
  apply (ListByCategory_filters_List registry_examples.noUnicode
           registry_examples.entries "TOOLS").
  apply (loadWebsiteEntries_keyed registry_examples.noUnicode),
    loadDirectoryEntries_keyed, keyed_empty.
Defined.

(** ** Properties of the fetch command *)

Section FetchActionFacts.

Context {World : Type}.

Variable mapUnicodeToLower : string -> string.
Variable quote : string -> string.
Variable entries : gmap string registry.Entry.
Variable Get : resty.Client -> string -> World -> GetResult * World.
Variable clientClose : resty.Client -> World -> option GoError * World.

(** The fetcher the command builds: the default configuration with the
    value of [--verbose]. *)
Local Abbreviation fetcherOf verbose :=
  (NewFetcher
     (Some (mkConfig defaultTimeout defaultRetryCount defaultRetryWaitTime
              defaultRetryMaxWaitTime verbose))).

Local Abbreviation run :=
  (commands.fetchAction mapUnicodeToLower quote entries Get clientClose).

Lemma fetchAction_no_name (cmd : cli.Command) (w : World) :
  cli.First (cli.Args cmd) = "" ->
  run cmd w =
  commands.Returned
    (Some (cli.Exit ("name is required" +:+ commands.LF +:+ commands.LF
                     +:+ "Usage: llxt fetch <name>")
             llxtcli.ExitInvalidInput))
    "" [] w.
Proof. intros Hname. unfold commands.fetchAction. now rewrite Hname. Qed.

Lemma fetchAction_unknown (cmd : cli.Command) (w : World) :
  cli.First (cli.Args cmd) <> "" ->
  entries !! strings.ToLower mapUnicodeToLower (cli.First (cli.Args cmd))
    = None ->
  run cmd w =
  commands.Returned
    (Some (cli.Exit ("Source " +:+ quote (cli.First (cli.Args cmd))
                     +:+ " not found")
             llxtcli.ExitNotFound))
    "" [] w.
Proof.
  intros Hname Hnone. unfold commands.fetchAction.
  apply String.eqb_neq in Hname. rewrite Hname.
  unfold registry.Lookup. rewrite Hnone. reflexivity.
Qed.

Lemma fetchAction_known (cmd : cli.Command) (w : World)
    (entry : registry.Entry) :
  cli.First (cli.Args cmd) <> "" ->
  entries !! strings.ToLower mapUnicodeToLower (cli.First (cli.Args cmd))
    = Some entry ->
  run cmd w =
  let fetcher := fetcherOf (cli.Bool cmd "verbose") in
  let r :=
    FetchLLMsTxt Get fetcher (registry.LLMsURL entry)
      (registry.LLMsFullURL entry) (cli.Bool cmd "full") w in
  commands.Returned
    (match r.1.2 with
     | Some _ =>
         Some (cli.Exit "Failed to fetch llms.txt" llxtcli.ExitNetworkError)
     | None => None
     end)
    (match r.1.2 with
     | Some _ => ""
     | None => r.1.1
     end)
    (if cli.Bool cmd "quiet" then []
     else [ {| ui.Message :=
                 "Fetching " +:+ cli.First (cli.Args cmd) +:+ "...";
               ui.Total := 0;
               ui.mark := match r.1.2 with
                          | Some _ => ui.MarkAsErrored
                          | None => ui.MarkAsDone
                          end |} ])
    (clientClose (client fetcher) r.2).2.
Proof.
  intros Hname Hentry. unfold commands.fetchAction.
  apply String.eqb_neq in Hname. rewrite Hname.
  unfold registry.Lookup. rewrite Hentry. cbn zeta.
  unfold ui.WithSpinner, Close. cbn [fst snd].
  destruct (FetchLLMsTxt Get _ _ _ _ w) as [[content [err |]] w1];
    destruct (cli.Bool cmd "quiet"); reflexivity.
Qed.

Lemma Fetch_failure (f : Fetcher) (url : string) (w w1 : World)
    (resp : resty.Response) (err : option GoError) :
  Get (client f) url w = ((resp, err), w1) ->
  err <> None \/ 400 <= resty.StatusCode resp ->
  exists e : oops.OopsError, Fetch Get f url w = ("", Some e, w1).
Proof.
  intros HGet Hfail. destruct err as [cause |].
  - eexists. apply (Fetch_transport Get f url w w1 resp cause HGet).
  - destruct Hfail as [Hfail | Hge]; [congruence |].
    status_cases (resty.StatusCode resp); [| | lia |]; eexists.
    + apply (Fetch_404 Get f url w w1 resp HGet H404).
    + apply (Fetch_429 Get f url w w1 resp HGet H429).
    + apply (Fetch_4xx_5xx Get f url w w1 resp HGet Hge H404 H429).
Qed.

(** The URL the command requests for an entry. *)
Local Abbreviation targetOf cmd entry :=
  (match cli.Bool cmd "full", registry.LLMsFullURL entry with
   | true, Some fullURL => fullURL
   | _, _ => registry.LLMsURL entry
   end).

(** X18.  The fetch command never dereferences a nil registry entry: for
    every command line, registry and network it returns, with an error or
    nil. *)
Theorem fetchAction_returns (cmd : cli.Command) (w : World) :
  exists (err : option cli.ExitError) (stdout : string)
         (stderr : list ui.Tracker) (w' : World),
    run cmd w = commands.Returned err stdout stderr w'.
Proof.
  destruct (decide (cli.First (cli.Args cmd) = "")) as [Hname | Hname].
  - rewrite (fetchAction_no_name cmd w Hname). eauto.
  - destruct (entries !! strings.ToLower mapUnicodeToLower
                (cli.First (cli.Args cmd))) as [entry |] eqn:Hentry.
    + rewrite (fetchAction_known cmd w entry Hname Hentry). cbn zeta. eauto.
    + rewrite (fetchAction_unknown cmd w Hname Hentry). eauto.
Qed.

(** X19.  When the fetch command returns an error nothing is printed to
    stdout, and the error is one of three: exit code 5 when no name is
    given, exit code 2 with the message naming the source when the name is
    not in the registry, exit code 3 with the message "Failed to fetch
    llms.txt" when the name is in the registry.  In the first two cases no
    spinner is shown and the world is untouched: no request is made and no
    client is closed. *)
Theorem fetchAction_errors (cmd : cli.Command) (w w' : World)
    (x : cli.ExitError) (stdout : string) (stderr : list ui.Tracker) :
  run cmd w = commands.Returned (Some x) stdout stderr w' ->
  let name := cli.First (cli.Args cmd) in
  stdout = "" /\
  ((cli.exitCode x = llxtcli.ExitInvalidInput /\ name = "" /\
    stderr = [] /\ w' = w) \/
   (cli.exitCode x = llxtcli.ExitNotFound /\
    cli.message x = "Source " +:+ quote name +:+ " not found" /\
    name <> "" /\
    entries !! strings.ToLower mapUnicodeToLower name = None /\
    stderr = [] /\ w' = w) \/
   (cli.exitCode x = llxtcli.ExitNetworkError /\
    cli.message x = "Failed to fetch llms.txt" /\
    name <> "" /\
    is_Some (entries !! strings.ToLower mapUnicodeToLower name))).
Proof.
  intros Hrun name. subst name.
  destruct (decide (cli.First (cli.Args cmd) = "")) as [Hname | Hname].
  - rewrite (fetchAction_no_name cmd w Hname) in Hrun.
    injection Hrun as <- <- <- <-. split; [reflexivity |].
    left. split_and!; try reflexivity. exact Hname.
  - destruct (entries !! strings.ToLower mapUnicodeToLower
                (cli.First (cli.Args cmd))) as [entry |] eqn:Hentry.
    + rewrite (fetchAction_known cmd w entry Hname Hentry) in Hrun.
      cbn zeta in Hrun.
      destruct (FetchLLMsTxt Get _ _ _ _ w) as [[content [err |]] w1];
        cbn [fst snd] in Hrun; [| discriminate Hrun].
      injection Hrun as <- <- _ _. split; [reflexivity |].
      right; right. split_and!; try reflexivity; [exact Hname | eauto].
    + rewrite (fetchAction_unknown cmd w Hname Hentry) in Hrun.
      injection Hrun as <- <- <- <-. split; [reflexivity |].
      right; left. split_and!; try reflexivity. exact Hname.
Qed.

(** X20.  Every failed fetch ends the command with exit code 3 and the
    message "Failed to fetch llms.txt", whether the client reports an error
    or the response has a status of 400 or more, 404 and 429 included: the
    exit codes for "not found" and "rate limited" are not used for a failed
    fetch.  The tracker, when shown, is marked as errored and the client is
    closed after the request. *)
Theorem fetchAction_fetch_failure (cmd : cli.Command) (w w1 : World)
    (entry : registry.Entry) (resp : resty.Response) (err : option GoError) :
  cli.First (cli.Args cmd) <> "" ->
  entries !! strings.ToLower mapUnicodeToLower (cli.First (cli.Args cmd))
    = Some entry ->
  Get (client (fetcherOf (cli.Bool cmd "verbose"))) (targetOf cmd entry) w
    = ((resp, err), w1) ->
  err <> None \/ 400 <= resty.StatusCode resp ->
  run cmd w =
  commands.Returned
    (Some (cli.Exit "Failed to fetch llms.txt" llxtcli.ExitNetworkError))
    ""
    (if cli.Bool cmd "quiet" then []
     else [ {| ui.Message :=
                 "Fetching " +:+ cli.First (cli.Args cmd) +:+ "...";
               ui.Total := 0;
               ui.mark := ui.MarkAsErrored |} ])
    (clientClose (client (fetcherOf (cli.Bool cmd "verbose"))) w1).2.
Proof.
  intros Hname Hentry HGet Hfail.
  rewrite (fetchAction_known cmd w entry Hname Hentry). cbn zeta.
  unfold FetchLLMsTxt.
  destruct (Fetch_failure _ _ w w1 resp err HGet Hfail) as [e He].
  rewrite He. reflexivity.
Qed.

(** X21.  When the name is in the registry and the response has a status
    below 400, the command returns nil and prints exactly the response
    body; the tracker, when shown, is marked as done and the client is
    closed after the request. *)
Theorem fetchAction_success (cmd : cli.Command) (w w1 : World)
    (entry : registry.Entry) (resp : resty.Response) :
  cli.First (cli.Args cmd) <> "" ->
  entries !! strings.ToLower mapUnicodeToLower (cli.First (cli.Args cmd))
    = Some entry ->
  Get (client (fetcherOf (cli.Bool cmd "verbose"))) (targetOf cmd entry) w
    = ((resp, None), w1) ->
  resty.StatusCode resp < 400 ->
  run cmd w =
  commands.Returned None (resty.String resp)
    (if cli.Bool cmd "quiet" then []
     else [ {| ui.Message :=
                 "Fetching " +:+ cli.First (cli.Args cmd) +:+ "...";
               ui.Total := 0;
               ui.mark := ui.MarkAsDone |} ])
    (clientClose (client (fetcherOf (cli.Bool cmd "verbose"))) w1).2.
Proof.
  intros Hname Hentry HGet Hlt.
  rewrite (fetchAction_known cmd w entry Hname Hentry). cbn zeta.
  unfold FetchLLMsTxt.
  rewrite (Fetch_success Get _ _ w w1 resp HGet Hlt). reflexivity.
Qed.

(** X22.  The flag [--quiet] changes nothing but stderr: two command lines
    with the same arguments and the same [--full] and [--verbose], one of
    them quiet, return the same error, print the same text and leave the
    same world; the quiet one shows no tracker. *)
Theorem fetchAction_quiet (cmd1 cmd2 : cli.Command) (w : World) :
  cli.Args cmd1 = cli.Args cmd2 ->
  cli.Bool cmd1 "full" = cli.Bool cmd2 "full" ->
  cli.Bool cmd1 "verbose" = cli.Bool cmd2 "verbose" ->
  cli.Bool cmd1 "quiet" = true ->
  match run cmd1 w, run cmd2 w with
  | commands.Returned err1 stdout1 stderr1 w1,
    commands.Returned err2 stdout2 stderr2 w2 =>
      err1 = err2 /\ stdout1 = stdout2 /\ w1 = w2 /\ stderr1 = []
  | _, _ => False
  end.
Proof.
  intros Hargs Hfull Hverbose Hquiet.
  destruct (decide (cli.First (cli.Args cmd1) = "")) as [Hname | Hname].
  - rewrite (fetchAction_no_name cmd1 w Hname).
    rewrite Hargs in Hname. rewrite (fetchAction_no_name cmd2 w Hname).
    split_and!; reflexivity.
  - destruct (entries !! strings.ToLower mapUnicodeToLower
                (cli.First (cli.Args cmd1))) as [entry |] eqn:Hentry.
    + rewrite (fetchAction_known cmd1 w entry Hname Hentry).
      rewrite Hargs in Hname, Hentry.
      rewrite (fetchAction_known cmd2 w entry Hname Hentry).
      cbn zeta. rewrite Hfull, Hverbose, Hquiet.
      split_and!; reflexivity.
    + rewrite (fetchAction_unknown cmd1 w Hname Hentry).
      rewrite Hargs in Hname, Hentry.
      rewrite (fetchAction_unknown cmd2 w Hname Hentry).
      rewrite Hargs. split_and!; reflexivity.
Qed.

End FetchActionFacts.

Lemma fetchAction_errors_witness :
  let name := "nope" in
  "" = "" /\
  ((llxtcli.ExitNotFound = llxtcli.ExitInvalidInput /\ name = "" /\
    @nil ui.Tracker = [] /\ ([] : list string, false) = ([], false)) \/
   (llxtcli.ExitNotFound = llxtcli.ExitNotFound /\
    "Source " +:+ registry_examples.quoted name +:+ " not found" =
    "Source " +:+ registry_examples.quoted name +:+ " not found" /\
    name <> "" /\
    registry_examples.entries
      !! strings.ToLower registry_examples.noUnicode name = None /\
    @nil ui.Tracker = [] /\ ([] : list string, false) = ([], false)) \/
   (llxtcli.ExitNotFound = llxtcli.ExitNetworkError /\
    "Source " +:+ registry_examples.quoted name +:+ " not found" =
    "Failed to fetch llms.txt" /\
    name <> "" /\
    is_Some (registry_examples.entries
               !! strings.ToLower registry_examples.noUnicode name))).
Proof.
  exact (fetchAction_errors
           registry_examples.noUnicode registry_examples.quoted
           registry_examples.entries
           command_examples.logging command_examples.logging_close
           (command_examples.command ["nope"] false false false)
           ([], false) ([], false)
           (cli.Exit
              ("Source " +:+ registry_examples.quoted "nope" +:+ " not found")
              llxtcli.ExitNotFound)
           "" [] eq_refl).
Defined.

Lemma fetchAction_fetch_failure_witness :
  commands.fetchAction
    registry_examples.noUnicode registry_examples.quoted
    registry_examples.entries
    (examples.answering 429 examples.retryAfter5 "slow down")
    command_examples.closing
    (command_examples.command ["vite"] false true false) tt =
  commands.Returned
    (Some (cli.Exit "Failed to fetch llms.txt" llxtcli.ExitNetworkError))
    "" [] tt.
Proof.
  exact (fetchAction_fetch_failure
           registry_examples.noUnicode registry_examples.quoted
           registry_examples.entries
           (examples.answering 429 examples.retryAfter5 "slow down")
           command_examples.closing
           (command_examples.command ["vite"] false true false) tt tt
           registry_examples.entryVite
           (examples.response "https://vite.dev/llms.txt" 429
              examples.retryAfter5 "slow down")
           None
           ltac:(discriminate) eq_refl eq_refl
           ltac:(right; cbn; lia)).
Defined.

Lemma fetchAction_success_witness :
  commands.fetchAction
    registry_examples.noUnicode registry_examples.quoted
    registry_examples.entries
    command_examples.logging command_examples.logging_close
    (command_examples.command ["Vite"] true false true) ([], false) =
  commands.Returned None "https://vite.dev/llms-full.txt"
    [ {| ui.Message := "Fetching Vite...";
         ui.Total := 0;
         ui.mark := ui.MarkAsDone |} ]
    (["https://vite.dev/llms-full.txt"], true).
Proof.
  exact (fetchAction_success
           registry_examples.noUnicode registry_examples.quoted
           registry_examples.entries
           command_examples.logging command_examples.logging_close
           (command_examples.command ["Vite"] true false true)
           ([], false) (["https://vite.dev/llms-full.txt"], false)
           registry_examples.entryVite
           (examples.response "https://vite.dev/llms-full.txt" 200 ∅
              "https://vite.dev/llms-full.txt")
           ltac:(discriminate) eq_refl eq_refl
           ltac:(cbn; lia)).
Defined.

Lemma fetchAction_quiet_witness :
  match
    commands.fetchAction
      registry_examples.noUnicode registry_examples.quoted
      registry_examples.entries
      command_examples.logging command_examples.logging_close
      (command_examples.command ["vite"] false true false) ([], false),
    commands.fetchAction
      registry_examples.noUnicode registry_examples.quoted
      registry_examples.entries
      command_examples.logging command_examples.logging_close
      (command_examples.command ["vite"] false false false) ([], false)
  with
  | commands.Returned err1 stdout1 stderr1 w1,
    commands.Returned err2 stdout2 stderr2 w2 =>
      err1 = err2 /\ stdout1 = stdout2 /\ w1 = w2 /\ stderr1 = []
  | _, _ => False
  end.
Proof.
  exact (fetchAction_quiet
           registry_examples.noUnicode registry_examples.quoted
           registry_examples.entries
           command_examples.logging command_examples.logging_close
           (command_examples.command ["vite"] false true false)
           (command_examples.command ["vite"] false false false)
           ([], false) eq_refl eq_refl eq_refl eq_refl).
Defined.

(** X23.  The fetch command reaches the network through one client only,
    the one built from the default configuration with the value of
    [--verbose] as its debug switch: its timeout is 30 s, its retry count 3
    and its retry wait times 100 ms and 2 s whatever the command line, and
    two networks that treat this client alike give the same run. *)
Theorem fetchAction_uses_default_client {World : Type}
    (mapUnicodeToLower quote : string -> string)
    (entries : gmap string registry.Entry)
    (Get Get' : resty.Client -> string -> World -> GetResult * World)
    (clientClose clientClose' : resty.Client -> World -> option GoError * World)
    (cmd : cli.Command) (w : World) :
  let c :=
    NewClient
      (Some (mkConfig defaultTimeout defaultRetryCount defaultRetryWaitTime
               defaultRetryMaxWaitTime (cli.Bool cmd "verbose"))) in
  (resty.Timeout c = 30 * time.Second /\
   resty.RetryCount c = 3 /\
   resty.RetryWaitTime c = 100 * time.Millisecond /\
   resty.RetryMaxWaitTime c = 2 * time.Second /\
   resty.Debug c = cli.Bool cmd "verbose") /\
  ((forall (url : string) (w0 : World), Get c url w0 = Get' c url w0) ->
   (forall w0 : World, clientClose c w0 = clientClose' c w0) ->
   commands.fetchAction mapUnicodeToLower quote entries Get clientClose cmd w
   = commands.fetchAction mapUnicodeToLower quote entries Get' clientClose'
       cmd w).
Proof.
  cbn zeta. split.
  - destruct (cli.Bool cmd "verbose"); split_and!; reflexivity.
  - intros HGet HClose.
    destruct (decide (cli.First (cli.Args cmd) = "")) as [Hname | Hname].
    + now rewrite !fetchAction_no_name.
    + destruct (entries !! strings.ToLower mapUnicodeToLower
                  (cli.First (cli.Args cmd))) as [entry |] eqn:Hentry.
      * rewrite !(fetchAction_known _ _ _ _ _ cmd w entry Hname Hentry).
        cbn zeta. unfold FetchLLMsTxt, Fetch, NewFetcher. cbn [client].
        rewrite <- HGet.
        destruct (Get _ _ w) as [[resp err] w1]. cbn [fst snd].
        rewrite <- HClose. reflexivity.
      * now rewrite !fetchAction_unknown.
Qed.

Lemma fetchAction_uses_default_client_witness :
  commands.fetchAction
    registry_examples.noUnicode registry_examples.quoted
    registry_examples.entries
    examples.echoing command_examples.closing
    (command_examples.command ["vite"] false true true) tt
  = commands.fetchAction
      registry_examples.noUnicode registry_examples.quoted
      registry_examples.entries
      (fun c url w =>
         if resty.Debug c then examples.echoing c url w
         else examples.refusing c url w)
      command_examples.closing
      (command_examples.command ["vite"] false true true) tt.
Proof.
  apply (fetchAction_uses_default_client
           registry_examples.noUnicode registry_examples.quoted
           registry_examples.entries
           examples.echoing
           (fun c url w =>
              if resty.Debug c then examples.echoing c url w
              else examples.refusing c url w)
           command_examples.closing command_examples.closing
           (command_examples.command ["vite"] false true true) tt).
  - intros url w0. reflexivity.
  - intros w0. reflexivity.
Defined.

(** ** Further properties of the fetcher *)

(** X24.  [Fetch] makes one request: the world it leaves is the world that
    request leaves, and its result depends on the network only through the
    answer to that request. *)
Theorem Fetch_single_request {World : Type}
    (Get Get' : resty.Client -> string -> World -> GetResult * World)
    (f : Fetcher) (url : string) (w : World) :
  (Fetch Get f url w).2 = (Get (client f) url w).2 /\
  (Get (client f) url w = Get' (client f) url w ->
   Fetch Get f url w = Fetch Get' f url w).
Proof.
  split.
  - unfold Fetch.
    destruct (Get (client f) url w) as [[resp [cause |]] w1]; [reflexivity |].
    destruct (resty.StatusCode resp =? statusNotFound); [reflexivity |].
    destruct (resty.StatusCode resp =? statusRateLimited); [reflexivity |].
    destruct (resty.StatusCode resp >=? statusBadRequest); reflexivity.
  - intros HGet. unfold Fetch. now rewrite HGet.
Qed.

Lemma Fetch_single_request_witness :
  Fetch command_examples.logging examples.fetcher "https://a.example"
    ([], false)
  = Fetch
      (fun c url w =>
         if String.eqb url "https://a.example"
         then command_examples.logging c url w
         else ((examples.response url 500 ∅ "", None), w))
      examples.fetcher "https://a.example" ([], false).
Proof.
  apply (Fetch_single_request command_examples.logging
           (fun c url w =>
              if String.eqb url "https://a.example"
              then command_examples.logging c url w
              else ((examples.response url 500 ∅ "", None), w))
           examples.fetcher "https://a.example" ([], false)).
  reflexivity.
Defined.

(** X25.  Every error [Fetch] returns belongs to the HTTP domain, carries
    the tags [http] and [network], and records the requested URL under
    [url] in its context; only the [rate_limited] error carries a hint. *)
Theorem Fetch_error_invariants {World : Type}
    (Get : resty.Client -> string -> World -> GetResult * World)
    (f : Fetcher) (url : string) (w : World) (e : oops.OopsError) :
  (Fetch Get f url w).1.2 = Some e ->
  oops.domain e = errs.DomainHTTP /\
  oops.tags e = ["http"; "network"] /\
  oops.context e !! "url" = Some (oops.StringVal url) /\
  (oops.hint e <> "" <-> oops.code e = errs.CodeRateLimited).
Proof.
  unfold Fetch.
  destruct (Get (client f) url w) as [[resp [cause |]] w1]; cbn.
  - intros [= <-]. cbn. split_and!; try reflexivity.
    split; [congruence | discriminate].
  - destruct (resty.StatusCode resp =? statusNotFound); cbn.
    { intros [= <-]. cbn. split_and!; try reflexivity.
      split; [congruence | discriminate]. }
    destruct (resty.StatusCode resp =? statusRateLimited); cbn.
    { intros [= <-]. cbn. split_and!; try reflexivity.
      split; [reflexivity | discriminate]. }
    destruct (resty.StatusCode resp >=? statusBadRequest); cbn;
      [| discriminate].
    intros [= <-]. cbn. split_and!; try reflexivity.
    split; [congruence | discriminate].
Qed.

Lemma Fetch_error_invariants_witness :
  exists e : oops.OopsError,
    (Fetch examples.refusing examples.fetcher examples.primaryURL tt).1.2
      = Some e /\
    oops.domain e = "http" /\
    oops.context e !! "url" = Some (oops.StringVal examples.primaryURL).
Proof.
  eexists. split; [reflexivity |].
  destruct (Fetch_error_invariants examples.refusing examples.fetcher
              examples.primaryURL tt _ eq_refl) as (Hd & _ & Hu & _).
  split; [exact Hd | exact Hu].
Defined.

(** X26.  An error returned by [Fetch] has a [status] entry in its context
    exactly when the client handed back a response without an error and the
    status of that response is 400 or more and not 429; the entry then
    holds that status.  The transport error and the [rate_limited] error
    have none. *)
Theorem Fetch_status_entry {World : Type}
    (Get : resty.Client -> string -> World -> GetResult * World)
    (f : Fetcher) (url : string) (w w1 : World)
    (resp : resty.Response) (err : option GoError)
    (e : oops.OopsError) (v : oops.value) :
  Get (client f) url w = ((resp, err), w1) ->
  (Fetch Get f url w).1.2 = Some e ->
  (oops.context e !! "status" = Some v <->
   err = None /\ 400 <= resty.StatusCode resp /\
   resty.StatusCode resp <> 429 /\ v = oops.IntVal (resty.StatusCode resp)).
Proof.
  intros HGet. destruct err as [cause |].
  - rewrite (Fetch_transport Get f url w w1 resp cause HGet). cbn.
    intros [= <-]. cbn. split; [discriminate | intros [? _]; discriminate].
  - status_cases (resty.StatusCode resp).
    + rewrite (Fetch_404 Get f url w w1 resp HGet H404). cbn.
      intros [= <-]. cbn. rewrite H404. split.
      * intros [= <-]. split_and!; try reflexivity; lia.
      * intros (_ & _ & _ & ->). reflexivity.
    + rewrite (Fetch_429 Get f url w w1 resp HGet H429). cbn.
      intros [= <-]. cbn. split; [discriminate |].
      intros (_ & _ & Hne & _). contradiction.
    + rewrite (Fetch_success Get f url w w1 resp HGet Hlt). cbn. discriminate.
    + rewrite (Fetch_4xx_5xx Get f url w w1 resp HGet Hge H404 H429). cbn.
      intros [= <-]. cbn. split.
      * intros [= <-]. split_and!; try reflexivity; assumption.
      * intros (_ & _ & _ & ->). reflexivity.
Qed.

Lemma Fetch_status_entry_witness :
  exists e : oops.OopsError,
    (Fetch (examples.answering 404 ∅ "") examples.fetcher
       examples.primaryURL tt).1.2 = Some e /\
    oops.context e !! "status" = Some (oops.IntVal 404).
Proof.
  eexists. split; [reflexivity |].
  apply (Fetch_status_entry (examples.answering 404 ∅ "") examples.fetcher
           examples.primaryURL tt tt
           (examples.response examples.primaryURL 404 ∅ "") None
           _ (oops.IntVal 404) eq_refl eq_refl).
  split_and!; try reflexivity; cbn; lia.
Defined.
